(** * Split-app settlement engine: balances, validation and settlement plan

    A shallow embedding of the core of [backend/src/index.ts]: the
    validation loop, the balance map and the settlement loop of the
    [GET /balances] and [GET /settlements] handlers.

    Numbers.  The handlers compute on JavaScript numbers, IEEE 754
    doubles obtained with [Decimal.toNumber()].  They are embedded twice.
    The definitions at top level read them as exact rationals [Q]: [+],
    [-], [*], [/], [<], [>], [Math.min] and [Math.abs] are the rational
    operations, and [+x.toFixed(2)] is rounding to hundredths with halves
    away from zero; equalities between amounts are stated with [==].
    This reading carries the statements that do not turn on the rounding
    of double arithmetic: which quantity is rounded, the order of the
    checks, counts and bounds.  Module [Float64] embeds the same code on
    binary64 numbers; it carries the statements that do turn on it: the
    comparison at the boundary of the validity check and the balances the
    settlement loop leaves.

    Objects.  The records produced by the balance map are shared between
    the [balances] array and the [creditors] and [debtors] arrays built with
    [filter]; the settlement loop writes to their [balance] field.  The
    embedding keeps one store (the [balances] array) and lets [creditors]
    and [debtors] hold references, i.e. positions in that store. *)

From Stdlib Require Import QArith Qround Qabs Qminmax Lqa Lia ZArith Floats.
From stdpp Require Import base list strings.

Open Scope Q_scope.

(** ** Numbers *)

(** [a < b] and [a > b] on numbers. *)
Definition Qltb (a b : Q) : bool := negb (Qle_bool b a).
Definition Qgtb (a b : Q) : bool := Qltb b a.

(** The integer number of hundredths that [x.toFixed(2)] prints: the
    integer [n] with [n / 100] closest to [x], the one of larger
    magnitude on a tie (the sign is split off first). *)
Definition toFixed2 (x : Q) : Z :=
  if Qltb x 0 then (- Qfloor (- x * 100 + (1 # 2)))%Z
  else Qfloor (x * 100 + (1 # 2)).

(** [+x.toFixed(2)] *)
Definition round2 (x : Q) : Q := inject_Z (toFixed2 x) / 100.

(** [xs.reduce((sum, x) => sum + f(x), 0)] *)
Definition reduceSum {A : Type} (f : A -> Q) (xs : list A) : Q :=
  fold_left (fun sum x => sum + f x) xs 0.

(** ** Data model: the snapshot returned by [prisma.person.findMany] *)

Inductive SplitType : Type := equal | percentage | exact.

Definition SplitType_eqb (a b : SplitType) : bool :=
  match a, b with
  | equal, equal | percentage, percentage | exact, exact => true
  | _, _ => false
  end.

(** Modelled from the spec: the Prisma schema is not among the sources;
    an expense id is an opaque identifier, here an integer. *)
Definition ExpenseId : Type := Z.

(** A row of [expense.splits] (include [splits: true]). *)
Record ExpenseSplit : Type := mkExpenseSplit {
  row_splitType : SplitType;
  row_value : Q
}.

(** [split.expense], with its rows. *)
Record Expense : Type := mkExpense {
  id : ExpenseId;
  amount : Q;
  splits : list ExpenseSplit
}.

(** An element of [person.splits]. *)
Record Split : Type := mkSplit {
  splitType : SplitType;
  value : Q;
  expense : Expense
}.

(** An element of [person.paid]: a row of the expense table, of which
    the handlers read [amount].  Modelled from the spec: the other columns
    (the schema is not among the sources); the payer, a relation to the
    person table, is kept as the payer's name, which identifies a
    person. *)
Record ExpenseRow : Type := mkExpenseRow {
  exp_id : ExpenseId;
  exp_amount : Q;
  exp_paidBy : string
}.

(** An element of [people]. *)
Record Person : Type := mkPerson {
  person_name : string;
  person_paid : list ExpenseRow;
  person_splits : list Split
}.

(** ** Expense validity check *)

Inductive ValidationError : Type :=
| InvalidExact (expenseId : ExpenseId) (totalSplit total : Q)
| InvalidPercentage (expenseId : ExpenseId) (totalPercentage : Q).

(** [expense.splits.reduce((sum, s) => sum + s.value.toNumber(), 0)] *)
Definition totalSplit (e : Expense) : Q := reduceSum row_value (splits e).

(** The two [if] blocks of the inner validation loop for one [split];
    [Some] is the [return res.status(400)]. *)
Definition checkSplit (split : Split) : option ValidationError :=
  let expense := expense split in
  let exactCheck :=
    if SplitType_eqb (splitType split) exact then
      let total := amount expense in
      if Qgtb (totalSplit expense) (total + 0.01)
      then Some (InvalidExact (id expense) (totalSplit expense) total)
      else None
    else None in
  match exactCheck with
  | Some err => Some err
  | None =>
      if SplitType_eqb (splitType split) percentage then
        if Qgtb (totalSplit expense) 100.01
        then Some (InvalidPercentage (id expense) (totalSplit expense))
        else None
      else None
  end.

(** [for (const split of person.splits)], returning at the first error. *)
Fixpoint checkSplits (splits : list Split) : option ValidationError :=
  match splits with
  | [] => None
  | split :: rest =>
      match checkSplit split with
      | Some err => Some err
      | None => checkSplits rest
      end
  end.

(** [for (const person of people)], returning at the first error. *)
Fixpoint validate (people : list Person) : option ValidationError :=
  match people with
  | [] => None
  | person :: rest =>
      match checkSplits (person_splits person) with
      | Some err => Some err
      | None => validate rest
      end
  end.

(** ** Split evaluation and balance aggregation *)

(** The record built per person by [people.map]. *)
Record Balance : Type := mkBalance {
  name : string;
  paid : Q;
  owes : Q;
  balance : Q
}.

(** [split.expense.splits.length || 1] *)
Definition numPeople (split : Split) : nat :=
  match length (splits (expense split)) with
  | O => 1%nat
  | n => n
  end.

(** The [share] computed in the body of the [owes] reduction. *)
Definition shareOf (split : Split) : Q :=
  let total := amount (expense split) in
  match splitType split with
  | equal => total / inject_Z (Z.of_nat (numPeople split))
  | percentage => (value split / 100) * total
  | exact => value split
  end.

(** [person.paid.reduce((sum, exp) => sum + exp.amount.toNumber(), 0)] *)
Definition paidOf (person : Person) : Q :=
  reduceSum exp_amount (person_paid person).

(** [person.splits.reduce((sum, split) => ... sum + share, 0)] *)
Definition owesOf (person : Person) : Q :=
  reduceSum shareOf (person_splits person).

(** The body of the balance map: the three figures of one person. *)
Definition balanceRecord (person : Person) : Balance :=
  let paid := paidOf person in
  let owes := owesOf person in
  {| name := person_name person;
     paid := round2 paid;
     owes := round2 owes;
     balance := round2 (paid - owes) |}.

(** [people.map((person) => ...)] *)
Definition computeBalances (people : list Person) : list Balance :=
  map balanceRecord people.

(** ** Settlement planner *)

Record Settlement : Type := mkSettlement {
  from : string;
  to : string;
  amount_sent : Q
}.

(** Reading a field of the object behind reference [k]. *)
Definition balanceAt (store : list Balance) (k : nat) : Q :=
  match store !! k with
  | Some p => balance p
  | None => 0
  end.

Definition nameAt (store : list Balance) (k : nat) : string :=
  match store !! k with
  | Some p => name p
  | None => EmptyString
  end.

(** [p.balance += d], the other fields untouched. *)
Definition addToBalance (d : Q) (p : Balance) : Balance :=
  {| name := name p; paid := paid p; owes := owes p;
     balance := balance p + d |}.

(** [p.balance -= d] *)
Definition subFromBalance (d : Q) (p : Balance) : Balance :=
  {| name := name p; paid := paid p; owes := owes p;
     balance := balance p - d |}.

(** [balances.filter(f)]: the references of the records satisfying [f],
    in array order. *)
Definition filterRefs (f : Balance -> bool) (balances : list Balance)
  : list nat :=
  List.filter
    (fun k => match balances !! k with Some p => f p | None => false end)
    (seq 0 (length balances)).

(** [Array.prototype.sort(cmp)] is a stable sort: [x] moves behind [y]
    only when [cmp(x, y) > 0]. *)
Fixpoint insertSorted (cmp : nat -> nat -> Q) (x : nat) (l : list nat)
  : list nat :=
  match l with
  | [] => [x]
  | y :: l' =>
      if Qgtb (cmp x y) 0 then y :: insertSorted cmp x l' else x :: l
  end.

Definition sortRefs (cmp : nat -> nat -> Q) (l : list nat) : list nat :=
  foldr (insertSorted cmp) [] l.

(** [balances.filter(p => p.balance > 0)
            .sort((a, b) => b.balance - a.balance)] *)
Definition creditorsOf (balances : list Balance) : list nat :=
  sortRefs (fun a b => balanceAt balances b - balanceAt balances a)
    (filterRefs (fun p => Qgtb (balance p) 0) balances).

(** [balances.filter(p => p.balance < 0)
            .sort((a, b) => a.balance - b.balance)] *)
Definition debtorsOf (balances : list Balance) : list nat :=
  sortRefs (fun a b => balanceAt balances a - balanceAt balances b)
    (filterRefs (fun p => Qltb (balance p) 0) balances).

(** The variables the [while] loop changes. *)
Record LoopState : Type := mkLoopState {
  st_i : nat;
  st_j : nat;
  st_balances : list Balance;
  st_settlements : list Settlement
}.

(** The body of the loop, [debtor] and [creditor] being the references
    [debtors[i]] and [creditors[j]]. *)
Definition body (debtor creditor : nat) (st : LoopState) : LoopState :=
  let store := st_balances st in
  let amount := Qmin (- balanceAt store debtor) (balanceAt store creditor) in
  let emit := Qgtb amount 0.01 in
  let settlements' :=
    if emit then
      st_settlements st ++
        [ {| from := nameAt store debtor;
             to := nameAt store creditor;
             amount_sent := round2 amount |} ]
    else st_settlements st in
  let store' :=
    if emit then
      alter (subFromBalance amount) creditor
        (alter (addToBalance amount) debtor store)
    else store in
  let i' :=
    if Qltb (Qabs (balanceAt store' debtor)) 0.01
    then S (st_i st) else st_i st in
  let j' :=
    if Qltb (Qabs (balanceAt store' creditor)) 0.01
    then S (st_j st) else st_j st in
  {| st_i := i'; st_j := j';
     st_balances := store'; st_settlements := settlements' |}.

(** One evaluation of the loop condition and, when it holds, of the
    body.  [None]: the condition [i < debtors.length && j <
    creditors.length] is false and the loop is left. *)
Definition step (debtors creditors : list nat) (st : LoopState)
  : option LoopState :=
  match debtors !! st_i st, creditors !! st_j st with
  | Some debtor, Some creditor => Some (body debtor creditor st)
  | _, _ => None
  end.

(** The state after at most [n] evaluations of the body. *)
Fixpoint iter (debtors creditors : list nat) (n : nat) (st : LoopState)
  : LoopState :=
  match n with
  | O => st
  | S n' =>
      match step debtors creditors st with
      | Some st' => iter debtors creditors n' st'
      | None => st
      end
  end.

(** The [while] loop with a bound on the number of iterations: [Some]
    when the loop is left within [fuel] iterations, [None] otherwise. *)
Definition loop (debtors creditors : list nat) (fuel : nat) (st : LoopState)
  : option LoopState :=
  let st' := iter debtors creditors fuel st in
  match step debtors creditors st' with
  | None => Some st'
  | Some _ => None
  end.

Definition initState (balances : list Balance) : LoopState :=
  {| st_i := 0; st_j := 0; st_balances := balances; st_settlements := [] |}.

(** The planner: from the records of the balance map to the pair
    [(summary, settlements)] of the response; [summary] is the [balances]
    array as the loop left it. *)
Definition plan (fuel : nat) (balances : list Balance)
  : option (list Balance * list Settlement) :=
  match loop (debtorsOf balances) (creditorsOf balances) fuel
          (initState balances) with
  | Some st => Some (st_balances st, st_settlements st)
  | None => None
  end.

(** ** The two handlers *)

Inductive Response : Type :=
| Status400 (err : ValidationError)
| BalancesOk (data : list Balance)
| SettlementsOk (summary : list Balance) (settlements : list Settlement)
| Status500.

(** [GET /balances].  [fetched = None] stands for [findMany] throwing,
    which the [catch] block turns into a 500 response. *)
Definition balancesHandler (fetched : option (list Person)) : Response :=
  match fetched with
  | None => Status500
  | Some people =>
      match validate people with
      | Some err => Status400 err
      | None => BalancesOk (computeBalances people)
      end
  end.

(** [GET /settlements]; [None] when the loop is not left within [fuel]
    iterations. *)
Definition settlementsHandler (fuel : nat) (fetched : option (list Person))
  : option Response :=
  match fetched with
  | None => Some Status500
  | Some people =>
      match validate people with
      | Some err => Some (Status400 err)
      | None =>
          match plan fuel (computeBalances people) with
          | Some (summary, settlements) =>
              Some (SettlementsOk summary settlements)
          | None => None
          end
      end
  end.

(** ** The persistence layer *)

(** Modelled from the spec: the Prisma schema and the query of the
    handlers ([prisma.person.findMany] with its [include]) are not among
    the sources.  The tables are persons (identified by their unique
    name), expenses ([ExpenseRow]: amount and payer) and expense splits
    (expense, obligor, split type and value). *)
Record SplitRow : Type := mkSplitRow {
  sr_expense : ExpenseId;
  sr_person : string;
  sr_type : SplitType;
  sr_value : Q
}.

Record Database : Type := mkDatabase {
  db_persons : list string;
  db_expenses : list ExpenseRow;
  db_splits : list SplitRow
}.

(** The split rows of expense [e]. *)
Definition splitRowsOf (db : Database) (e : ExpenseRow) : list SplitRow :=
  filter (fun s => sr_expense s = exp_id e) (db_splits db).

(** Modelled from the spec: [include: { splits: true }] on an expense. *)
Definition expenseOf (db : Database) (e : ExpenseRow) : Expense :=
  {| id := exp_id e;
     amount := exp_amount e;
     splits :=
       map (fun s => mkExpenseSplit (sr_type s) (sr_value s))
         (splitRowsOf db e) |}.

(** Modelled from the spec: the snapshot
    [findMany({ include: { paid: true, splits: { include: { expense:
    { include: { splits: true } } } } } })]. *)
Definition findMany (db : Database) : list Person :=
  map
    (fun who =>
       {| person_name := who;
          person_paid :=
            filter (fun e => exp_paidBy e = who) (db_expenses db);
          person_splits :=
            s ← filter (fun s => sr_person s = who) (db_splits db);
            e ← filter (fun e => exp_id e = sr_expense s) (db_expenses db);
            [ mkSplit (sr_type s) (sr_value s) (expenseOf db e) ] |})
    (db_persons db).

(** Names are unique and every payer and obligor is a person. *)
Definition wellFormed (db : Database) : Prop :=
  NoDup (db_persons db) /\
  Forall (fun e => exp_paidBy e ∈ db_persons db) (db_expenses db) /\
  Forall (fun s => sr_person s ∈ db_persons db) (db_splits db).

(** Every expense's split set allocates its amount in full, and every
    payer is the obligor of some split. *)
Definition closedSystem (db : Database) : Prop :=
  Forall
    (fun e =>
       reduceSum
         (fun s => shareOf (mkSplit (sr_type s) (sr_value s) (expenseOf db e)))
         (splitRowsOf db e)
       == exp_amount e)
    (db_expenses db) /\
  Forall
    (fun e => Exists (fun s => sr_person s = exp_paidBy e) (db_splits db))
    (db_expenses db).

(** ** Vocabulary of the properties *)

(** Amounts that are a whole number of hundredths. *)
Definition isCents (x : Q) : Prop := exists n : Z, x == inject_Z n / 100.

(** The amount moved by one iteration. *)
Definition amountOf (d c : nat) (st : LoopState) : Q :=
  Qmin (- balanceAt (st_balances st) d) (balanceAt (st_balances st) c).

(** The amount actually moved by an iteration: the amount when it is
    above 0.01, nothing otherwise. *)
Definition moved (d c : nat) (st : LoopState) : Q :=
  if Qgtb (amountOf d c st) 0.01 then amountOf d c st else 0.

(** The cursors count the emitted settlements. *)
Definition countInv (debtors creditors : list nat) (st : LoopState) : Prop :=
  (length (st_settlements st) <= st_i st + st_j st)%nat /\
  (st_i st <= length debtors)%nat /\
  (st_j st <= length creditors)%nat /\
  (length (st_settlements st) = 0%nat \/
   (length (st_settlements st) + 1 <= length debtors + length creditors)%nat).

(** Two records of the same person: all fields but [balance] agree. *)
Definition sameIdentity (p0 p : Balance) : Prop :=
  name p = name p0 /\ paid p = paid p0 /\ owes p = owes p0.

(** ** Snapshots and balances used as examples *)

(** Amount 100, exact splits A:40 and B:70, paid by A. *)
Definition exact_110 : Expense :=
  mkExpense 7%Z 100 [mkExpenseSplit exact 40; mkExpenseSplit exact 70].

Definition exact_110_people : list Person :=
  [ mkPerson "A" [mkExpenseRow 7%Z 100 "A"] [mkSplit exact 40 exact_110];
    mkPerson "B" [] [mkSplit exact 70 exact_110] ].

(** Amount 200, percentage splits A:50 and B:60, paid by A. *)
Definition percent_110 : Expense :=
  mkExpense 8%Z 200
    [mkExpenseSplit percentage 50; mkExpenseSplit percentage 60].

Definition percent_110_people : list Person :=
  [ mkPerson "A" [mkExpenseRow 8%Z 200 "A"]
      [mkSplit percentage 50 percent_110];
    mkPerson "B" [] [mkSplit percentage 60 percent_110] ].

(** Amount 200, percentage splits A:50 and B:50, paid by A. *)
Definition percent_100 : Expense :=
  mkExpense 9%Z 200
    [mkExpenseSplit percentage 50; mkExpenseSplit percentage 50].

Definition percent_100_people : list Person :=
  [ mkPerson "A" [mkExpenseRow 9%Z 200 "A"]
      [mkSplit percentage 50 percent_100];
    mkPerson "B" [] [mkSplit percentage 50 percent_100] ].

(** A paid 10.004 for B; B paid 3.996 for A. *)
Definition rounding_people : list Person :=
  [ mkPerson "A" [mkExpenseRow 1%Z 10.004 "A"]
      [mkSplit exact 3.996
         (mkExpense 2%Z 3.996 [mkExpenseSplit exact 3.996])];
    mkPerson "B" [mkExpenseRow 2%Z 3.996 "B"]
      [mkSplit exact 10.004
         (mkExpense 1%Z 10.004 [mkExpenseSplit exact 10.004])] ].

(** Amount 300 paid by A, split equally among A, B and C. *)
Definition equal_300 : Expense :=
  mkExpense 3%Z 300
    [mkExpenseSplit equal 0; mkExpenseSplit equal 0; mkExpenseSplit equal 0].

Definition equal_300_people : list Person :=
  [ mkPerson "A" [mkExpenseRow 3%Z 300 "A"] [mkSplit equal 0 equal_300];
    mkPerson "B" [] [mkSplit equal 0 equal_300];
    mkPerson "C" [] [mkSplit equal 0 equal_300] ].

(** Amount 100 paid by A, split equally among A, B and C. *)
Definition equal_100 : Expense :=
  mkExpense 4%Z 100
    [mkExpenseSplit equal 0; mkExpenseSplit equal 0; mkExpenseSplit equal 0].

Definition equal_100_people : list Person :=
  [ mkPerson "A" [mkExpenseRow 4%Z 100 "A"] [mkSplit equal 0 equal_100];
    mkPerson "B" [] [mkSplit equal 0 equal_100];
    mkPerson "C" [] [mkSplit equal 0 equal_100] ].

(** The scenario of the specification: A is owed 200, B and C owe 100
    each; two transfers, with one creditor and two debtors. *)
Definition three_way : list Balance :=
  [ mkBalance "A" 300 100 200;
    mkBalance "B" 0 100 (-100);
    mkBalance "C" 0 100 (-100) ].

(** A paid an expense of 0.01 whose only split is B's, of exact value
    0.01: A is owed 0.01 and B owes 0.01. *)
Definition cent_people : list Person :=
  [ mkPerson "A" [mkExpenseRow 1%Z 0.01 "A"] [];
    mkPerson "B" []
      [mkSplit exact 0.01 (mkExpense 1%Z 0.01 [mkExpenseSplit exact 0.01])] ].

(** Amount 100 paid by P0, split equally among P0 .. P6. *)
Definition seven_names : list string :=
  ["P0"; "P1"; "P2"; "P3"; "P4"; "P5"; "P6"].

Definition seven_way : Database :=
  {| db_persons := seven_names;
     db_expenses := [mkExpenseRow 1%Z 100 "P0"];
     db_splits := map (fun who => mkSplitRow 1%Z who equal 0) seven_names |}.

(** * Further vocabulary *)

(** ** Transfers and working balances *)

(** A transfer that goes from a record of negative balance to another
    record, of positive balance, for an amount of at least 0.01 and not
    above what the one owed or the other was owed, rounded. *)
Definition soundTransfer (balances0 : list Balance) (t : Settlement) : Prop :=
  exists kd kc pd pc,
    balances0 !! kd = Some pd /\ balances0 !! kc = Some pc /\ kd <> kc /\
    balance pd < 0 /\ 0 < balance pc /\
    from t = name pd /\ to t = name pc /\
    0.01 <= amount_sent t /\
    amount_sent t <= round2 (- balance pd) /\
    amount_sent t <= round2 (balance pc).

(** What holds of the state after every iteration, for any input. *)
Record Bounded (balances0 : list Balance) (debtors creditors : list nat)
    (st : LoopState) : Prop := mkBounded {
  bd_frame : Forall2 sameIdentity balances0 (st_balances st);
  bd_debtors :
    forall k, In k debtors ->
      balanceAt balances0 k <= balanceAt (st_balances st) k /\
      balanceAt (st_balances st) k <= 0;
  bd_creditors :
    forall k, In k creditors ->
      0 <= balanceAt (st_balances st) k /\
      balanceAt (st_balances st) k <= balanceAt balances0 k;
  bd_others :
    forall k, ~ In k debtors -> ~ In k creditors ->
      st_balances st !! k = balances0 !! k;
  bd_sum : reduceSum balance (st_balances st) == reduceSum balance balances0;
  bd_emitted : Forall (soundTransfer balances0) (st_settlements st)
}.

Arguments bd_frame {balances0 debtors creditors} st _.
Arguments bd_debtors {balances0 debtors creditors} st _.
Arguments bd_creditors {balances0 debtors creditors} st _.
Arguments bd_others {balances0 debtors creditors} st _.
Arguments bd_sum {balances0 debtors creditors} st _.
Arguments bd_emitted {balances0 debtors creditors} st _.

(** ** Category breakdown: [GET /category-expenses] *)

(** The categories of the request schemas. *)
Inductive Category : Type :=
| Food | Travel | Rent | Utilities | Entertainment | Groceries | Other.

(** An element of [grouped], the result of
    [prisma.expense.groupBy({ by: ['category'], _sum: { amount: true } })]:
    [group.category] and [group._sum.amount]. *)
Record CategoryGroup : Type := mkCategoryGroup {
  group_category : Category;
  group_sum : Q
}.

(** An element of [breakdown]. *)
Record CategoryShare : Type := mkCategoryShare {
  share_category : Category;
  share_total : Q;
  share_percentage : Q
}.

(** The fields [total] and [breakdown] of the 200 response. *)
Record CategoryReport : Type := mkCategoryReport {
  report_total : Q;
  report_breakdown : list CategoryShare
}.

(** The body of the handler after the query.  [amount.toFixed(2)] on a
    decimal rounds halves away from zero, like [toFixed] on a number. *)
Definition categoryExpenses (grouped : list CategoryGroup) : CategoryReport :=
  let total := reduceSum group_sum grouped in
  let result :=
    map (fun group =>
           {| share_category := group_category group;
              share_total := round2 (group_sum group);
              share_percentage := round2 (group_sum group / total * 100) |})
      grouped in
  {| report_total := round2 total; report_breakdown := result |}.

(** Food 100.10, Travel 50.05 and Rent 150.15. *)
Definition three_groups : list CategoryGroup :=
  [ mkCategoryGroup Food 100.10;
    mkCategoryGroup Travel 50.05;
    mkCategoryGroup Rent 150.15 ].

(** ** Writing expenses: [POST /expenses], [PUT /expenses/:id] and the
    monthly rent job *)

(** An element of [split] in a request body.  The enumeration of
    [splitSchema] is the type [SplitType]. *)
Record SplitItem : Type := mkSplitItem {
  item_name : string;
  item_splitType : SplitType;
  item_value : Q
}.

(** A request body with the fields the schemas name; the enumeration of
    categories is the type [Category]. *)
Record ExpenseBody : Type := mkExpenseBody {
  body_amount : Q;
  body_description : string;
  body_paid_by : string;
  body_category : Category;
  body_split : list SplitItem
}.

(** [zod.string().min(1)] *)
Definition minLength1 (s : string) : bool := bool_decide (s <> EmptyString).

(** [splitSchema]: a name, and a non-negative value. *)
Definition splitSchema (item : SplitItem) : bool :=
  minLength1 (item_name item) && Qle_bool 0 (item_value item).

(** [expenseData.safeParse(req.body).success] *)
Definition expenseData (body : ExpenseBody) : bool :=
  Qltb 0 (body_amount body)
  && minLength1 (body_description body)
  && minLength1 (body_paid_by body)
  && (1 <=? length (body_split body))%nat
  && forallb splitSchema (body_split body).

(** [expenseUpdateSchema.safeParse(req.body).success] *)
Definition expenseUpdateSchema (body : ExpenseBody) : bool :=
  Qltb 0 (body_amount body)
  && minLength1 (body_description body)
  && minLength1 (body_paid_by body)
  && (1 <=? length (body_split body))%nat
  && forallb splitSchema (body_split body).

(** Modelled from the spec: the calls of the Prisma client on the
    tables of [Database], which keeps the columns that the balance and
    settlement handlers read (description, category and creation time are
    not kept).  [upsert] by name finds the person or creates it. *)
Definition upsertPerson (who : string) (db : Database) : Database :=
  if decide (who ∈ db_persons db) then db
  else {| db_persons := db_persons db ++ [who];
          db_expenses := db_expenses db;
          db_splits := db_splits db |}.

(** Modelled from the spec: [prisma.expense.create]. *)
Definition createExpense (row : ExpenseRow) (db : Database) : Database :=
  {| db_persons := db_persons db;
     db_expenses := db_expenses db ++ [row];
     db_splits := db_splits db |}.

(** Modelled from the spec: [prisma.expenseSplit.create]. *)
Definition createSplit (row : SplitRow) (db : Database) : Database :=
  {| db_persons := db_persons db;
     db_expenses := db_expenses db;
     db_splits := db_splits db ++ [row] |}.

(** Modelled from the spec: [prisma.expense.findUnique({ where: { id } })]. *)
Definition findExpense (eid : ExpenseId) (db : Database) : option ExpenseRow :=
  head (filter (fun e => exp_id e = eid) (db_expenses db)).

(** Modelled from the spec: [prisma.expense.update({ where: { id }, data })]. *)
Definition updateExpense (eid : ExpenseId) (amount : Q) (paidBy : string)
    (db : Database) : Database :=
  {| db_persons := db_persons db;
     db_expenses :=
       map (fun e => if decide (exp_id e = eid)
                     then mkExpenseRow eid amount paidBy else e)
         (db_expenses db);
     db_splits := db_splits db |}.

(** Modelled from the spec:
    [prisma.expenseSplit.deleteMany({ where: { expenseId } })]. *)
Definition deleteSplits (eid : ExpenseId) (db : Database) : Database :=
  {| db_persons := db_persons db;
     db_expenses := db_expenses db;
     db_splits := filter (fun s => sr_expense s <> eid) (db_splits db) |}.

(** The row written for [item]. *)
Definition splitRowOf (eid : ExpenseId) (item : SplitItem) : SplitRow :=
  {| sr_expense := eid;
     sr_person := item_name item;
     sr_type := item_splitType item;
     sr_value := item_value item |}.

(** The body of [for (const item of split)]: upsert the person, create
    the split. *)
Definition addSplit (eid : ExpenseId) (db : Database) (item : SplitItem)
  : Database :=
  createSplit (splitRowOf eid item) (upsertPerson (item_name item) db).

(** [for (const item of split) { ... }] *)
Definition addSplits (eid : ExpenseId) (items : list SplitItem)
    (db : Database) : Database :=
  fold_left (addSplit eid) items db.

(** The answers of the two writing handlers.  The [catch] blocks, for
    a failing database call, are not modelled: the calls above are total. *)
Inductive WriteResponse : Type :=
| Created201 (data : ExpenseRow)
| Updated200 (data : ExpenseRow)
| InvalidData400
| InvalidId400
| NotFound404.

(** [POST /expenses].  [newId] is the id that the database gives to the
    created expense. *)
Definition postExpense (newId : ExpenseId) (body : ExpenseBody)
    (db : Database) : WriteResponse * Database :=
  if negb (expenseData body) then (InvalidData400, db)
  else
    let db1 := upsertPerson (body_paid_by body) db in
    let expense :=
      mkExpenseRow newId (body_amount body) (body_paid_by body) in
    let db2 := createExpense expense db1 in
    let db3 := addSplits newId (body_split body) db2 in
    (Created201 expense, db3).

(** [PUT /expenses/:id].  [expenseId] is [parseInt(req.params.id)],
    [None] standing for [NaN]; [!expenseId] holds of [NaN] and of 0. *)
Definition putExpense (expenseId : option Z) (body : ExpenseBody)
    (db : Database) : WriteResponse * Database :=
  match expenseId with
  | None => (InvalidId400, db)
  | Some 0%Z => (InvalidId400, db)
  | Some eid =>
      if negb (expenseUpdateSchema body) then (InvalidData400, db)
      else
        match findExpense eid db with
        | None => (NotFound404, db)
        | Some _ =>
            let db1 := upsertPerson (body_paid_by body) db in
            let db2 :=
              updateExpense eid (body_amount body) (body_paid_by body) db1 in
            let db3 := deleteSplits eid db2 in
            let db4 := addSplits eid (body_split body) db3 in
            (Updated200
               (mkExpenseRow eid (body_amount body) (body_paid_by body)),
             db4)
        end
  end.

(** The rent job: the split of the scheduled task. *)
Definition rentSplit : list SplitItem :=
  [ mkSplitItem "Shantanu" equal 0;
    mkSplitItem "Sanket" equal 0;
    mkSplitItem "Om" equal 0 ].

(** The body of the scheduled task; [dayOfMonth] is [istDate.getDate()]
    and [newId] the id that the database gives to the created expense. *)
Definition rentJob (dayOfMonth : nat) (newId : ExpenseId) (db : Database)
  : Database :=
  if (dayOfMonth =? 1)%nat then
    let rentAmount := 30000 in
    let db1 := upsertPerson "Shantanu" db in
    let db2 := createExpense (mkExpenseRow newId rentAmount "Shantanu") db1 in
    addSplits newId rentSplit db2
  else db.

(** A dinner of 90 paid by Ann and split equally with Bob and Cid. *)
Definition dinner : ExpenseBody :=
  mkExpenseBody 90 "Dinner" "Ann" Food
    [ mkSplitItem "Ann" equal 0;
      mkSplitItem "Bob" equal 0;
      mkSplitItem "Cid" equal 0 ].

(** A bill of 100 paid by Ann with exact splits of 40 and 70. *)
Definition overdrawn : ExpenseBody :=
  mkExpenseBody 100 "Bill" "Ann" Other
    [ mkSplitItem "Ann" exact 40; mkSplitItem "Bob" exact 70 ].

Definition emptyDb : Database :=
  {| db_persons := []; db_expenses := []; db_splits := [] |}.

(** The person table after upserting [names] in turn. *)
Definition addNames (names : list string) (persons : list string)
  : list string :=
  fold_left (fun ps n => if decide (n ∈ ps) then ps else ps ++ [n])
    names persons.

(** The expense written by a request, and the tables after
    [upsert], [expense.create] and the loop over the split. *)
Definition writtenExpense (newId : ExpenseId) (amount : Q) (paidBy : string)
    (items : list SplitItem) (db : Database) : Database :=
  addSplits newId items
    (createExpense (mkExpenseRow newId amount paidBy)
       (upsertPerson paidBy db)).

(** No row of the tables carries the id [newId] yet. *)
Definition freshId (newId : ExpenseId) (db : Database) : Prop :=
  Forall (fun e => exp_id e <> newId) (db_expenses db) /\
  Forall (fun s => sr_expense s <> newId) (db_splits db).

(** The tables after a successful [PUT /expenses/:id]: [upsert],
    [expense.update], [expenseSplit.deleteMany] and the loop over the
    split. *)
Definition rewrittenExpense (eid : ExpenseId) (amount : Q) (paidBy : string)
    (items : list SplitItem) (db : Database) : Database :=
  addSplits eid items
    (deleteSplits eid
       (updateExpense eid amount paidBy (upsertPerson paidBy db))).

(** A lunch of 60 paid by Bob and split equally with Ann. *)
Definition lunch : ExpenseBody :=
  mkExpenseBody 60 "Lunch" "Bob" Food
    [ mkSplitItem "Ann" equal 0; mkSplitItem "Bob" equal 0 ].

(** The record that [findMany] returns for the person [who]. *)
Definition personRecord (db : Database) (who : string) : Person :=
  {| person_name := who;
     person_paid := filter (fun e => exp_paidBy e = who) (db_expenses db);
     person_splits :=
       s ← filter (fun s => sr_person s = who) (db_splits db);
       e ← filter (fun e => exp_id e = sr_expense s) (db_expenses db);
       [ mkSplit (sr_type s) (sr_value s) (expenseOf db e) ] |}.

(** The expense of a request, with its splits, as the snapshot shows it. *)
Definition requestedExpense (eid : ExpenseId) (body : ExpenseBody) : Expense :=
  {| id := eid;
     amount := body_amount body;
     splits :=
       map (fun item => mkExpenseSplit (item_splitType item) (item_value item))
         (body_split body) |}.

(** * The handlers on doubles *)

(** The definitions above read the numbers of the handlers as exact
    rationals.  This module embeds the same code on IEEE 754 binary64
    numbers, the numbers JavaScript computes with: [+], [-], [*], [/],
    [<] and [Math.abs] are the operations of [PrimFloat], and a literal
    such as [0.01] is the double nearest to it.  The snapshot keeps the
    Decimals of the database as rationals; [toNumber] converts them where
    the source calls [toNumber()]. *)
Module Float64.

#[local] Set Warnings "-inexact-float".
Local Open Scope float_scope.

(** ** Numbers *)

(** [Decimal.toNumber()], and the reading of a decimal numeral: the
    double nearest to the decimal, halves to even. *)
Definition toNumber (d : Q) : float :=
  match Qnum d with
  | Z0 => 0
  | Zpos n =>
      SF2Prim (SFdiv prec emax (S754_finite false n 0)
                 (S754_finite false (Qden d) 0))
  | Zneg n =>
      SF2Prim (SFdiv prec emax (S754_finite true n 0)
                 (S754_finite false (Qden d) 0))
  end.

(** The digits that [toFixed(2)] prints for the double [m * 2 ^ e]: the
    integer [n] with [n / 100] closest to it, the larger one on a tie. *)
Definition toFixed2 (m : positive) (e : Z) : Z :=
  match e with
  | Zneg k => (Zpos m * 200 + 2 ^ Zpos k) / 2 ^ (Zpos k + 1)
  | _ => Zpos m * 2 ^ e * 100
  end%Z.

(** [+x.toFixed(2)].  [toFixed] splits the sign off ([x < 0], so that
    [-0] prints as [0.00] and [-0.001] as [-0.00]), prints [NaN] and the
    infinities by name and a number of magnitude 1e21 or more in full;
    the unary [+] reads the numeral back. *)
Definition round2 (x : float) : float :=
  match Prim2SF x with
  | S754_finite s m e =>
      if 1e21 <=? abs x then x
      else
        let r := toNumber (inject_Z (toFixed2 m e) / 100)%Q in
        if s then - r else r
  | S754_zero _ => 0
  | S754_infinity _ | S754_nan => x
  end.

(** [Math.min(a, b)]: [NaN] when an argument is, and [-0] below [+0]. *)
Definition min (a b : float) : float :=
  if is_nan a || is_nan b then nan
  else if a <? b then a
  else if b <? a then b
  else match classify a with NZero => a | _ => b end.

(** [xs.reduce((sum, x) => sum + f(x), 0)] *)
Definition reduceSum {A : Type} (f : A -> float) (xs : list A) : float :=
  fold_left (fun sum x => sum + f x) xs 0.

(** ** Expense validity check *)

Inductive ValidationError : Type :=
| InvalidExact (expenseId : ExpenseId) (totalSplit total : float)
| InvalidPercentage (expenseId : ExpenseId) (totalPercentage : float).

(** [expense.splits.reduce((sum, s) => sum + s.value.toNumber(), 0)] *)
Definition totalSplit (e : Expense) : float :=
  reduceSum (fun s => toNumber (row_value s)) (splits e).

(** The two [if] blocks of the inner validation loop for one [split];
    [Some] is the [return res.status(400)]. *)
Definition checkSplit (split : Split) : option ValidationError :=
  let expense := expense split in
  let exactCheck :=
    if SplitType_eqb (splitType split) exact then
      let total := toNumber (amount expense) in
      if total + 0.01 <? totalSplit expense
      then Some (InvalidExact (id expense) (totalSplit expense) total)
      else None
    else None in
  match exactCheck with
  | Some err => Some err
  | None =>
      if SplitType_eqb (splitType split) percentage then
        if 100.01 <? totalSplit expense
        then Some (InvalidPercentage (id expense) (totalSplit expense))
        else None
      else None
  end.

(** [for (const split of person.splits)], returning at the first error. *)
Fixpoint checkSplits (splits : list Split) : option ValidationError :=
  match splits with
  | [] => None
  | split :: rest =>
      match checkSplit split with
      | Some err => Some err
      | None => checkSplits rest
      end
  end.

(** [for (const person of people)], returning at the first error. *)
Fixpoint validate (people : list Person) : option ValidationError :=
  match people with
  | [] => None
  | person :: rest =>
      match checkSplits (person_splits person) with
      | Some err => Some err
      | None => validate rest
      end
  end.

(** ** Split evaluation and balance aggregation *)

(** The record built per person by [people.map]. *)
Record Balance : Type := mkBalance {
  name : string;
  paid : float;
  owes : float;
  balance : float
}.

(** The [share] computed in the body of the [owes] reduction;
    [numPeople] is [split.expense.splits.length || 1]. *)
Definition shareOf (split : Split) : float :=
  let total := toNumber (amount (expense split)) in
  match splitType split with
  | equal => total / toNumber (inject_Z (Z.of_nat (numPeople split)))
  | percentage => (toNumber (value split) / 100) * total
  | exact => toNumber (value split)
  end.

(** [person.paid.reduce((sum, exp) => sum + exp.amount.toNumber(), 0)] *)
Definition paidOf (person : Person) : float :=
  reduceSum (fun exp => toNumber (exp_amount exp)) (person_paid person).

(** [person.splits.reduce((sum, split) => ... sum + share, 0)] *)
Definition owesOf (person : Person) : float :=
  reduceSum shareOf (person_splits person).

(** The body of the balance map: the three figures of one person. *)
Definition balanceRecord (person : Person) : Balance :=
  let paid := paidOf person in
  let owes := owesOf person in
  {| name := person_name person;
     paid := round2 paid;
     owes := round2 owes;
     balance := round2 (paid - owes) |}.

(** [people.map((person) => ...)] *)
Definition computeBalances (people : list Person) : list Balance :=
  map balanceRecord people.

(** ** Settlement planner *)

Record Settlement : Type := mkSettlement {
  from : string;
  to : string;
  amount_sent : float
}.

(** Reading a field of the object behind reference [k]. *)
Definition balanceAt (store : list Balance) (k : nat) : float :=
  match store !! k with
  | Some p => balance p
  | None => 0
  end.

Definition nameAt (store : list Balance) (k : nat) : string :=
  match store !! k with
  | Some p => name p
  | None => EmptyString
  end.

(** [p.balance += d], the other fields untouched. *)
Definition addToBalance (d : float) (p : Balance) : Balance :=
  {| name := name p; paid := paid p; owes := owes p;
     balance := balance p + d |}.

(** [p.balance -= d] *)
Definition subFromBalance (d : float) (p : Balance) : Balance :=
  {| name := name p; paid := paid p; owes := owes p;
     balance := balance p - d |}.

(** [balances.filter(f)]: the references of the records satisfying [f],
    in array order. *)
Definition filterRefs (f : Balance -> bool) (balances : list Balance)
  : list nat :=
  List.filter
    (fun k => match balances !! k with Some p => f p | None => false end)
    (seq 0 (length balances)).

(** [Array.prototype.sort(cmp)] is a stable sort: [x] moves behind [y]
    only when [cmp(x, y) > 0]. *)
Fixpoint insertSorted (cmp : nat -> nat -> float) (x : nat) (l : list nat)
  : list nat :=
  match l with
  | [] => [x]
  | y :: l' =>
      if 0 <? cmp x y then y :: insertSorted cmp x l' else x :: l
  end.

Definition sortRefs (cmp : nat -> nat -> float) (l : list nat) : list nat :=
  foldr (insertSorted cmp) [] l.

(** [balances.filter(p => p.balance > 0)
            .sort((a, b) => b.balance - a.balance)] *)
Definition creditorsOf (balances : list Balance) : list nat :=
  sortRefs (fun a b => balanceAt balances b - balanceAt balances a)
    (filterRefs (fun p => 0 <? balance p) balances).

(** [balances.filter(p => p.balance < 0)
            .sort((a, b) => a.balance - b.balance)] *)
Definition debtorsOf (balances : list Balance) : list nat :=
  sortRefs (fun a b => balanceAt balances a - balanceAt balances b)
    (filterRefs (fun p => balance p <? 0) balances).

(** The variables the [while] loop changes. *)
Record LoopState : Type := mkLoopState {
  st_i : nat;
  st_j : nat;
  st_balances : list Balance;
  st_settlements : list Settlement
}.

(** [Math.min(-debtor.balance, creditor.balance)] *)
Definition amountOf (debtor creditor : nat) (store : list Balance) : float :=
  min (- balanceAt store debtor) (balanceAt store creditor).

(** The body of the loop, [debtor] and [creditor] being the references
    [debtors[i]] and [creditors[j]]. *)
Definition body (debtor creditor : nat) (st : LoopState) : LoopState :=
  let store := st_balances st in
  let amount := amountOf debtor creditor store in
  let emit := 0.01 <? amount in
  let settlements' :=
    if emit then
      st_settlements st ++
        [ {| from := nameAt store debtor;
             to := nameAt store creditor;
             amount_sent := round2 amount |} ]
    else st_settlements st in
  let store' :=
    if emit then
      alter (subFromBalance amount) creditor
        (alter (addToBalance amount) debtor store)
    else store in
  let i' :=
    if abs (balanceAt store' debtor) <? 0.01
    then S (st_i st) else st_i st in
  let j' :=
    if abs (balanceAt store' creditor) <? 0.01
    then S (st_j st) else st_j st in
  {| st_i := i'; st_j := j';
     st_balances := store'; st_settlements := settlements' |}.

(** One evaluation of the loop condition and, when it holds, of the
    body.  [None]: the condition [i < debtors.length && j <
    creditors.length] is false and the loop is left. *)
Definition step (debtors creditors : list nat) (st : LoopState)
  : option LoopState :=
  match debtors !! st_i st, creditors !! st_j st with
  | Some debtor, Some creditor => Some (body debtor creditor st)
  | _, _ => None
  end.

(** The state after at most [n] evaluations of the body. *)
Fixpoint iter (debtors creditors : list nat) (n : nat) (st : LoopState)
  : LoopState :=
  match n with
  | O => st
  | S n' =>
      match step debtors creditors st with
      | Some st' => iter debtors creditors n' st'
      | None => st
      end
  end.

(** The [while] loop with a bound on the number of iterations: [Some]
    when the loop is left within [fuel] iterations, [None] otherwise. *)
Definition loop (debtors creditors : list nat) (fuel : nat) (st : LoopState)
  : option LoopState :=
  let st' := iter debtors creditors fuel st in
  match step debtors creditors st' with
  | None => Some st'
  | Some _ => None
  end.

Definition initState (balances : list Balance) : LoopState :=
  {| st_i := 0; st_j := 0; st_balances := balances; st_settlements := [] |}.

(** The planner: from the records of the balance map to the pair
    [(summary, settlements)] of the response; [summary] is the [balances]
    array as the loop left it. *)
Definition plan (fuel : nat) (balances : list Balance)
  : option (list Balance * list Settlement) :=
  match loop (debtorsOf balances) (creditorsOf balances) fuel
          (initState balances) with
  | Some st => Some (st_balances st, st_settlements st)
  | None => None
  end.

(** ** The two handlers *)

Inductive Response : Type :=
| Status400 (err : ValidationError)
| BalancesOk (data : list Balance)
| SettlementsOk (summary : list Balance) (settlements : list Settlement)
| Status500.

(** [GET /balances].  [fetched = None] stands for [findMany] throwing,
    which the [catch] block turns into a 500 response. *)
Definition balancesHandler (fetched : option (list Person)) : Response :=
  match fetched with
  | None => Status500
  | Some people =>
      match validate people with
      | Some err => Status400 err
      | None => BalancesOk (computeBalances people)
      end
  end.

(** [GET /settlements]; [None] when the loop is not left within [fuel]
    iterations. *)
Definition settlementsHandler (fuel : nat) (fetched : option (list Person))
  : option Response :=
  match fetched with
  | None => Some Status500
  | Some people =>
      match validate people with
      | Some err => Some (Status400 err)
      | None =>
          match plan fuel (computeBalances people) with
          | Some (summary, settlements) =>
              Some (SettlementsOk summary settlements)
          | None => None
          end
      end
  end.

(** ** Vocabulary of the properties *)

(** One emitting iteration: the references of the debtor and of the
    creditor, and the amount added to the one and subtracted from the
    other (the amount before [toFixed]). *)
Record Move : Type := mkMove {
  mv_debtor : nat;
  mv_creditor : nat;
  mv_amount : float
}.

(** The moves of the first [n] iterations from [st], in loop order. *)
Fixpoint movesOf (debtors creditors : list nat) (n : nat) (st : LoopState)
  : list Move :=
  match n with
  | O => []
  | S n' =>
      match debtors !! st_i st, creditors !! st_j st with
      | Some d, Some c =>
          let amount := amountOf d c (st_balances st) in
          (if 0.01 <? amount then [mkMove d c amount] else [])
            ++ movesOf debtors creditors n' (body d c st)
      | _, _ => []
      end
  end.

(** [debtor.balance += amount; creditor.balance -= amount] *)
Definition applyMove (store : list Balance) (m : Move) : list Balance :=
  alter (subFromBalance (mv_amount m)) (mv_creditor m)
    (alter (addToBalance (mv_amount m)) (mv_debtor m) store).

(** What a move does to the balance [b] of the record behind [k]. *)
Definition movedBy (k : nat) (b : float) (m : Move) : float :=
  let b' := if decide (k = mv_debtor m) then b + mv_amount m else b in
  if decide (k = mv_creditor m) then b' - mv_amount m else b'.

(** The settlement pushed for a move. *)
Definition settlementOf (balances : list Balance) (m : Move) : Settlement :=
  {| from := nameAt balances (mv_debtor m);
     to := nameAt balances (mv_creditor m);
     amount_sent := round2 (mv_amount m) |}.

(** Two records of the same person: all fields but [balance] agree. *)
Definition sameIdentity (p0 p : Balance) : Prop :=
  name p = name p0 /\ paid p = paid p0 /\ owes p = owes p0.

(** Total sent by, and total received by, the person called [who]. *)
Definition outgoing (who : string) (ss : list Settlement) : float :=
  reduceSum amount_sent (filter (fun t => from t = who) ss).

Definition incoming (who : string) (ss : list Settlement) : float :=
  reduceSum amount_sent (filter (fun t => to t = who) ss).

(** [Math.abs(x) < 0.01] *)
Definition settled (x : float) : bool := abs x <? 0.01.

(** The record [p] with [b] for its balance. *)
Definition withBalance (p : Balance) (b : float) : Balance :=
  {| name := name p; paid := paid p; owes := owes p; balance := b |}.

(** The records behind the cursors have balances below 0.01 in
    magnitude. *)
Definition behindCursors (debtors creditors : list nat) (st : LoopState)
  : Prop :=
  (forall i k, (i < st_i st)%nat -> debtors !! i = Some k ->
     settled (balanceAt (st_balances st) k) = true) /\
  (forall j k, (j < st_j st)%nat -> creditors !! j = Some k ->
     settled (balanceAt (st_balances st) k) = true).

End Float64.

(** ** Snapshots used as examples on doubles *)

(** Amount 3, exact splits A:0.02 and B:2.99, paid by A: the decimals
    add up to the amount plus 0.01. *)
Definition boundary_exact : Expense :=
  mkExpense 5%Z 3 [mkExpenseSplit exact 0.02; mkExpenseSplit exact 2.99].

Definition boundary_exact_people : list Person :=
  [ mkPerson "A" [mkExpenseRow 5%Z 3 "A"] [mkSplit exact 0.02 boundary_exact];
    mkPerson "B" [] [mkSplit exact 2.99 boundary_exact] ].

(** Amount 100, percentage splits A:14.07, B:49.95 and C:35.99, paid
    by A: the decimals add up to 100.01. *)
Definition boundary_percent : Expense :=
  mkExpense 6%Z 100
    [ mkExpenseSplit percentage 14.07; mkExpenseSplit percentage 49.95;
      mkExpenseSplit percentage 35.99 ].

Definition boundary_percent_people : list Person :=
  [ mkPerson "A" [mkExpenseRow 6%Z 100 "A"]
      [mkSplit percentage 14.07 boundary_percent];
    mkPerson "B" [] [mkSplit percentage 49.95 boundary_percent];
    mkPerson "C" [] [mkSplit percentage 35.99 boundary_percent] ].

(** A paid 0.1 and B paid 0.2, both for C. *)
Definition tenths_people : list Person :=
  [ mkPerson "A" [mkExpenseRow 1%Z 0.1 "A"] [];
    mkPerson "B" [mkExpenseRow 2%Z 0.2 "B"] [];
    mkPerson "C" []
      [ mkSplit exact 0.1 (mkExpense 1%Z 0.1 [mkExpenseSplit exact 0.1]);
        mkSplit exact 0.2 (mkExpense 2%Z 0.2 [mkExpenseSplit exact 0.2]) ] ].

(** * Properties *)

(** ** Numbers *)

Lemma Qltb_lt (a b : Q) : Qltb a b = true <-> a < b.
Proof.
  unfold Qltb. rewrite negb_true_iff, <- not_true_iff_false, Qle_bool_iff.
  split; [apply Qnot_le_lt | apply Qlt_not_le].
Qed.

Lemma Qltb_ge (a b : Q) : Qltb a b = false <-> b <= a.
Proof.
  unfold Qltb. rewrite negb_false_iff. apply Qle_bool_iff.
Qed.

Lemma Qgtb_gt (a b : Q) : Qgtb a b = true <-> b < a.
Proof. apply Qltb_lt. Qed.

Lemma Qgtb_le (a b : Q) : Qgtb a b = false <-> a <= b.
Proof. apply Qltb_ge. Qed.

Lemma fold_sum_acc {A : Type} (f : A -> Q) (xs : list A) (a : Q) :
  fold_left (fun sum x => sum + f x) xs a == a + reduceSum f xs.
Proof.
  unfold reduceSum. revert a.
  induction xs as [|x xs IH]; intros a; simpl.
  - lra.
  - rewrite (IH (a + f x)), (IH (0 + f x)). lra.
Qed.

Lemma reduceSum_nil {A : Type} (f : A -> Q) : reduceSum f [] = 0.
Proof. reflexivity. Qed.

Lemma reduceSum_cons {A : Type} (f : A -> Q) (x : A) (xs : list A) :
  reduceSum f (x :: xs) == f x + reduceSum f xs.
Proof.
  unfold reduceSum at 1. simpl. rewrite fold_sum_acc. lra.
Qed.

Lemma reduceSum_app {A : Type} (f : A -> Q) (xs ys : list A) :
  reduceSum f (xs ++ ys) == reduceSum f xs + reduceSum f ys.
Proof.
  induction xs as [|x xs IH]; simpl.
  - rewrite reduceSum_nil. lra.
  - rewrite !reduceSum_cons, IH. lra.
Qed.

Lemma round2_isCents (x : Q) : isCents (round2 x).
Proof. exists (toFixed2 x). reflexivity. Qed.

Lemma Qfloor_half (n : Z) : Qfloor (inject_Z n + (1 # 2)) = n.
Proof.
  pose proof (Qfloor_le (inject_Z n + (1 # 2))) as H1.
  pose proof (Qlt_floor (inject_Z n + (1 # 2))) as H2.
  set (m := Qfloor (inject_Z n + (1 # 2))) in *.
  assert (H3 : inject_Z m < inject_Z (n + 1)).
  { rewrite inject_Z_plus. change (inject_Z 1) with 1. lra. }
  assert (H4 : inject_Z n < inject_Z (m + 1)) by lra.
  rewrite <- Zlt_Qlt in H3, H4. lia.
Qed.

Lemma toFixed2_hundredths (n : Z) : toFixed2 (inject_Z n / 100) = n.
Proof.
  unfold toFixed2.
  destruct (Qltb (inject_Z n / 100) 0) eqn:E.
  - assert (H : - (inject_Z n / 100) * 100 + (1 # 2)
                 == inject_Z (- n) + (1 # 2)).
    { rewrite inject_Z_opp. field. }
    rewrite (Qfloor_comp _ _ H), Qfloor_half. lia.
  - assert (H : inject_Z n / 100 * 100 + (1 # 2) == inject_Z n + (1 # 2))
      by field.
    rewrite (Qfloor_comp _ _ H). apply Qfloor_half.
Qed.

Lemma toFixed2_comp (x y : Q) : x == y -> toFixed2 x = toFixed2 y.
Proof.
  intros H. unfold toFixed2.
  assert (Hb : Qltb x 0 = Qltb y 0).
  { destruct (Qltb y 0) eqn:E.
    - apply Qltb_lt. apply Qltb_lt in E. lra.
    - apply Qltb_ge. apply Qltb_ge in E. lra. }
  rewrite Hb. destruct (Qltb y 0).
  - f_equal. apply Qfloor_comp. rewrite H. reflexivity.
  - apply Qfloor_comp. rewrite H. reflexivity.
Qed.

#[global] Instance round2_compat : Proper (Qeq ==> Qeq) round2.
Proof.
  intros x y H. unfold round2. rewrite (toFixed2_comp x y H). reflexivity.
Qed.

Lemma round2_cents (x : Q) : isCents x -> round2 x == x.
Proof.
  intros [n Hn]. unfold round2.
  rewrite (toFixed2_comp _ _ Hn), toFixed2_hundredths. symmetry. exact Hn.
Qed.

(** Rounding moves a number by at most half a hundredth. *)
Lemma round2_error (x : Q) : Qabs (round2 x - x) <= 0.005.
Proof.
  apply Qabs_Qle_condition. unfold round2, toFixed2, Qdiv.
  change (/ 100) with (1 # 100).
  destruct (Qltb x 0) eqn:E.
  - pose proof (Qfloor_le (- x * 100 + (1 # 2))) as H1.
    pose proof (Qlt_floor (- x * 100 + (1 # 2))) as H2.
    rewrite inject_Z_plus in H2. rewrite inject_Z_opp.
    set (m := inject_Z (Qfloor (- x * 100 + (1 # 2)))) in *.
    change (inject_Z 1) with 1 in H2. lra.
  - pose proof (Qfloor_le (x * 100 + (1 # 2))) as H1.
    pose proof (Qlt_floor (x * 100 + (1 # 2))) as H2.
    rewrite inject_Z_plus in H2.
    set (m := inject_Z (Qfloor (x * 100 + (1 # 2)))) in *.
    change (inject_Z 1) with 1 in H2. lra.
Qed.

(** ** Validation *)

Lemma checkSplits_None (splits : list Split) :
  checkSplits splits = None <->
  forall split, In split splits -> checkSplit split = None.
Proof.
  induction splits as [|s rest IH]; simpl.
  - split; [intros _ ? [] | reflexivity].
  - destruct (checkSplit s) eqn:E.
    + split; [discriminate|]. intros H.
      specialize (H s (or_introl eq_refl)). congruence.
    + rewrite IH. split.
      * intros H x [<-|Hx]; auto.
      * intros H x Hx. apply H. now right.
Qed.

Lemma validate_None (people : list Person) :
  validate people = None <->
  forall person split,
    In person people -> In split (person_splits person) ->
    checkSplit split = None.
Proof.
  induction people as [|p rest IH]; simpl.
  - split; [intros _ ? ? [] | reflexivity].
  - destruct (checkSplits (person_splits p)) eqn:E.
    + split; [discriminate|]. intros H.
      assert (checkSplits (person_splits p) = None); [|congruence].
      apply checkSplits_None. intros s Hs. apply (H p s); auto.
    + rewrite IH. rewrite checkSplits_None in E. split.
      * intros H x s [<-|Hx] Hs; eauto.
      * intros H x s Hx Hs. apply (H x s); auto.
Qed.

Lemma rejected_by_both (people : list Person) (err : ValidationError) :
  validate people = Some err ->
  balancesHandler (Some people) = Status400 err /\
  forall fuel, settlementsHandler fuel (Some people) = Some (Status400 err).
Proof.
  intros H. unfold balancesHandler, settlementsHandler. rewrite H. auto.
Qed.

Lemma failing_split_rejects (people : list Person) (person : Person)
    (split : Split) :
  In person people -> In split (person_splits person) ->
  checkSplit split <> None ->
  exists err, validate people = Some err.
Proof.
  intros Hp Hs Hc. destruct (validate people) as [err|] eqn:E; [eauto|].
  exfalso. apply Hc. rewrite validate_None in E. eauto.
Qed.

Lemma checkSplit_exact (split : Split) :
  splitType split = exact ->
  checkSplit split =
    if Qgtb (totalSplit (expense split)) (amount (expense split) + 0.01)
    then Some (InvalidExact (id (expense split)) (totalSplit (expense split))
                 (amount (expense split)))
    else None.
Proof.
  intros H. unfold checkSplit. rewrite H. simpl.
  now destruct (Qgtb _ _).
Qed.

Lemma checkSplit_percentage (split : Split) :
  splitType split = percentage ->
  checkSplit split =
    if Qgtb (totalSplit (expense split)) 100.01
    then Some (InvalidPercentage (id (expense split))
                 (totalSplit (expense split)))
    else None.
Proof.
  intros H. unfold checkSplit. rewrite H. reflexivity.
Qed.

Lemma checkSplit_equal (split : Split) :
  splitType split = equal -> checkSplit split = None.
Proof.
  intros H. unfold checkSplit. rewrite H. reflexivity.
Qed.

(** *** Scenarios of the specification *)

Example exact_110_rejected :
  balancesHandler (Some exact_110_people)
    = Status400 (InvalidExact 7%Z 110 100) /\
  settlementsHandler 0 (Some exact_110_people)
    = Some (Status400 (InvalidExact 7%Z 110 100)).
Proof. split; reflexivity. Qed.

Example percent_110_rejected :
  balancesHandler (Some percent_110_people)
    = Status400 (InvalidPercentage 8%Z 110) /\
  settlementsHandler 0 (Some percent_110_people)
    = Some (Status400 (InvalidPercentage 8%Z 110)).
Proof. split; reflexivity. Qed.

Example percent_100_accepted :
  validate percent_100_people = None /\
  Forall (fun b => owes b == 100) (computeBalances percent_100_people).
Proof. split; [reflexivity | repeat constructor]. Qed.



(** ** Split evaluation and aggregation *)

Lemma numPeople_max (split : Split) :
  Z.of_nat (numPeople split)
    = Z.max 1 (Z.of_nat (length (splits (expense split)))).
Proof.
  unfold numPeople. destruct (length (splits (expense split))); lia.
Qed.


(** The shares of an expense whose [n >= 1] rows are all equal splits
    add up to the amount. *)
Lemma equal_shares_sum (e : Expense) :
  splits e <> [] ->
  reduceSum (fun row => shareOf (mkSplit equal (row_value row) e)) (splits e)
    == amount e.
Proof.
  intros Hne. unfold shareOf. simpl splitType. cbv iota. simpl expense.
  assert (Hn : numPeople (mkSplit equal 0 e) = length (splits e)).
  { unfold numPeople. simpl. destruct (splits e); [congruence | reflexivity]. }
  assert (Hall : forall v, numPeople (mkSplit equal v e)
                           = numPeople (mkSplit equal 0 e)) by reflexivity.
  set (c := amount e / inject_Z (Z.of_nat (numPeople (mkSplit equal 0 e)))).
  assert (Hsum : forall rows : list ExpenseSplit,
             reduceSum (fun _ => c) rows
               == inject_Z (Z.of_nat (length rows)) * c).
  { induction rows as [|r rows IH].
    - rewrite reduceSum_nil. change (inject_Z (Z.of_nat (length []))) with 0.
      lra.
    - rewrite reduceSum_cons, IH.
      change (length (r :: rows)) with (S (length rows)).
      rewrite Nat2Z.inj_succ. unfold Z.succ. rewrite inject_Z_plus.
      change (inject_Z 1) with 1. lra. }
  change (reduceSum (fun _ => c) (splits e) == amount e).
  rewrite Hsum. unfold c. rewrite Hn. field.
  destruct (splits e); [congruence|].
  simpl length. rewrite Nat2Z.inj_succ. unfold Z.succ. rewrite inject_Z_plus.
  change (inject_Z 1) with 1.
  pose proof (Nat2Z.is_nonneg (length l)) as Hpos.
  rewrite Zle_Qle in Hpos. change (inject_Z 0) with 0 in Hpos. lra.
Qed.




(** ** The settlement loop *)

Lemma lookup_In {A : Type} (l : list A) (i : nat) (x : A) :
  l !! i = Some x -> In x l.
Proof. intros H. apply list_elem_of_In. eapply list_elem_of_lookup_2, H. Qed.

Lemma balanceAt_alter_ne (f : Balance -> Balance) (store : list Balance)
    (r k : nat) :
  r <> k -> balanceAt (alter f r store) k = balanceAt store k.
Proof. intros H. unfold balanceAt. now rewrite list_lookup_alter_ne. Qed.

Lemma balanceAt_alter_eq (f : Balance -> Balance) (store : list Balance)
    (r : nat) (p : Balance) :
  store !! r = Some p -> balanceAt (alter f r store) r = balance (f p).
Proof.
  intros H. unfold balanceAt. rewrite list_lookup_alter.
  destruct (decide (r = r)); [|congruence]. now rewrite H.
Qed.

Lemma balanceAt_lookup (store : list Balance) (r : nat) (p : Balance) :
  store !! r = Some p -> balanceAt store r = balance p.
Proof. intros H. unfold balanceAt. now rewrite H. Qed.

(** A positive or negative reading comes from a record of the store. *)
Lemma balanceAt_nonzero (store : list Balance) (r : nat) :
  ~ balanceAt store r == 0 -> exists p, store !! r = Some p.
Proof.
  unfold balanceAt. destruct (store !! r) as [p|]; [eauto|].
  intros H. now destruct H.
Qed.

Lemma body_skip (d c : nat) (st : LoopState) :
  Qgtb (amountOf d c st) 0.01 = false ->
  st_balances (body d c st) = st_balances st /\
  st_settlements (body d c st) = st_settlements st.
Proof.
  unfold amountOf, body. intros H. simpl. now rewrite H.
Qed.

Lemma body_emit (d c : nat) (st : LoopState) :
  Qgtb (amountOf d c st) 0.01 = true ->
  st_balances (body d c st)
    = alter (subFromBalance (amountOf d c st)) c
        (alter (addToBalance (amountOf d c st)) d (st_balances st)) /\
  st_settlements (body d c st)
    = st_settlements st ++
        [ {| from := nameAt (st_balances st) d;
             to := nameAt (st_balances st) c;
             amount_sent := round2 (amountOf d c st) |} ].
Proof.
  unfold amountOf, body. intros H. simpl. now rewrite H.
Qed.

Lemma body_i (d c : nat) (st : LoopState) :
  st_i (body d c st)
    = if Qltb (Qabs (balanceAt (st_balances (body d c st)) d)) 0.01
      then S (st_i st) else st_i st.
Proof. reflexivity. Qed.

Lemma body_j (d c : nat) (st : LoopState) :
  st_j (body d c st)
    = if Qltb (Qabs (balanceAt (st_balances (body d c st)) c)) 0.01
      then S (st_j st) else st_j st.
Proof. reflexivity. Qed.

(** The readings after an emitting iteration. *)
Lemma body_emit_balances (d c : nat) (st : LoopState) :
  d <> c ->
  Qgtb (amountOf d c st) 0.01 = true ->
  balanceAt (st_balances (body d c st)) d
    == balanceAt (st_balances st) d + amountOf d c st /\
  balanceAt (st_balances (body d c st)) c
    == balanceAt (st_balances st) c - amountOf d c st /\
  forall k, k <> d -> k <> c ->
    balanceAt (st_balances (body d c st)) k = balanceAt (st_balances st) k.
Proof.
  intros Hdc He.
  pose proof He as Hgt. apply Qgtb_gt in Hgt. unfold amountOf in Hgt.
  assert (Hd : exists p, st_balances st !! d = Some p).
  { apply balanceAt_nonzero. intros H0.
    pose proof (Q.le_min_l (- balanceAt (st_balances st) d)
                  (balanceAt (st_balances st) c)). lra. }
  assert (Hc : exists p, st_balances st !! c = Some p).
  { apply balanceAt_nonzero. intros H0.
    pose proof (Q.le_min_r (- balanceAt (st_balances st) d)
                  (balanceAt (st_balances st) c)). lra. }
  destruct Hd as [pd Hd], Hc as [pc Hc].
  destruct (body_emit d c st He) as [Hs _]. rewrite Hs.
  split; [|split].
  - rewrite balanceAt_alter_ne by congruence.
    rewrite (balanceAt_alter_eq _ _ _ _ Hd), (balanceAt_lookup _ _ _ Hd).
    reflexivity.
  - erewrite balanceAt_alter_eq
      by (rewrite list_lookup_alter_ne by congruence; exact Hc).
    rewrite (balanceAt_lookup _ _ _ Hc). reflexivity.
  - intros k Hkd Hkc. now rewrite !balanceAt_alter_ne by congruence.
Qed.

Lemma body_cursors_mono (d c : nat) (st : LoopState) :
  (st_i st <= st_i (body d c st) <= S (st_i st))%nat /\
  (st_j st <= st_j (body d c st) <= S (st_j st))%nat.
Proof.
  rewrite body_i, body_j.
  split; match goal with |- context [if ?b then _ else _] => destruct b end;
    lia.
Qed.

(** An emitting iteration settles the debtor or the creditor, so it
    moves a cursor. *)
Lemma body_emit_advances (d c : nat) (st : LoopState) :
  d <> c ->
  Qgtb (amountOf d c st) 0.01 = true ->
  (st_i st + st_j st < st_i (body d c st) + st_j (body d c st))%nat.
Proof.
  intros Hdc He.
  destruct (body_emit_balances d c st Hdc He) as (Hbd & Hbc & _).
  destruct (body_cursors_mono d c st) as [Hi Hj].
  unfold amountOf in Hbd, Hbc.
  destruct (Q.min_spec (- balanceAt (st_balances st) d)
              (balanceAt (st_balances st) c)) as [[_ Hm]|[_ Hm]].
  - assert (Hz : Qltb (Qabs (balanceAt (st_balances (body d c st)) d)) 0.01
                 = true).
    { apply Qltb_lt, Qabs_Qlt_condition. rewrite Hbd, Hm. lra. }
    assert (st_i (body d c st) = S (st_i st)) by (now rewrite body_i, Hz).
    lia.
  - assert (Hz : Qltb (Qabs (balanceAt (st_balances (body d c st)) c)) 0.01
                 = true).
    { apply Qltb_lt, Qabs_Qlt_condition. rewrite Hbc, Hm. lra. }
    assert (st_j (body d c st) = S (st_j st)) by (now rewrite body_j, Hz).
    lia.
Qed.

(** An iteration that moves no cursor changes nothing. *)
Lemma body_stuck (d c : nat) (st : LoopState) :
  d <> c ->
  st_i (body d c st) = st_i st ->
  st_j (body d c st) = st_j st ->
  body d c st = st.
Proof.
  intros Hdc Hi Hj.
  destruct (Qgtb (amountOf d c st) 0.01) eqn:He.
  - pose proof (body_emit_advances d c st Hdc He). lia.
  - destruct (body_skip d c st He) as [Hs Hss].
    destruct st as [i j store ss], (body d c _) as [i' j' store' ss'].
    simpl in *. congruence.
Qed.

Lemma body_settlements_length (d c : nat) (st : LoopState) :
  length (st_settlements (body d c st))
    = (length (st_settlements st)
       + if Qgtb (amountOf d c st) 0.01 then 1 else 0)%nat.
Proof.
  destruct (Qgtb (amountOf d c st) 0.01) eqn:He.
  - destruct (body_emit d c st He) as [_ ->]. rewrite length_app. reflexivity.
  - destruct (body_skip d c st He) as [_ ->]. lia.
Qed.

Section Loop.

Variable balances0 : list Balance.
Variables debtors creditors : list nat.

(** No record is both a debtor and a creditor. *)
Hypothesis refs_disjoint :
  forall k, In k debtors -> In k creditors -> False.

Lemma iter_invariant (P : LoopState -> Prop) :
  P (initState balances0) ->
  (forall st d c,
     P st ->
     debtors !! st_i st = Some d ->
     creditors !! st_j st = Some c ->
     P (body d c st)) ->
  forall n, P (iter debtors creditors n (initState balances0)).
Proof.
  intros Hinit Hstep n. generalize (initState balances0), Hinit.
  induction n as [|n IH]; intros st Hst; simpl; [exact Hst|].
  unfold step.
  destruct (debtors !! st_i st) as [d|] eqn:Ed; [|exact Hst].
  destruct (creditors !! st_j st) as [c|] eqn:Ec; [|exact Hst].
  apply IH. now apply (Hstep st d c).
Qed.

Lemma current_refs_differ (st : LoopState) (d c : nat) :
  debtors !! st_i st = Some d ->
  creditors !! st_j st = Some c ->
  d <> c.
Proof.
  intros Hd Hc ->. eapply refs_disjoint; eapply lookup_In; eassumption.
Qed.

Lemma countInv_iter (n : nat) :
  countInv debtors creditors (iter debtors creditors n (initState balances0)).
Proof.
  apply iter_invariant.
  - unfold countInv. simpl. lia.
  - intros st d c (Hlen & Hi & Hj & Hb) Hd Hc.
    pose proof (current_refs_differ st d c Hd Hc) as Hdc.
    apply lookup_lt_Some in Hd, Hc.
    destruct (body_cursors_mono d c st) as [Hmi Hmj].
    unfold countInv. rewrite body_settlements_length.
    destruct (Qgtb (amountOf d c st) 0.01) eqn:He.
    + pose proof (body_emit_advances d c st Hdc He). lia.
    + lia.
Qed.

(** Every iteration moves a cursor or changes nothing at all. *)
Lemma step_progress_or_stuck (st st' : LoopState) :
  step debtors creditors st = Some st' ->
  st' = st \/ (st_i st + st_j st < st_i st' + st_j st')%nat.
Proof.
  unfold step.
  destruct (debtors !! st_i st) as [d|] eqn:Ed; [|discriminate].
  destruct (creditors !! st_j st) as [c|] eqn:Ec; [|discriminate].
  intros [= <-].
  pose proof (current_refs_differ st d c Ed Ec) as Hdc.
  destruct (body_cursors_mono d c st) as [Hmi Hmj].
  destruct (decide (st_i (body d c st) = st_i st)) as [Hi|Hi];
    destruct (decide (st_j (body d c st) = st_j st)) as [Hj|Hj];
    try (right; lia).
  left. now apply body_stuck.
Qed.

Lemma iter_S_end (n : nat) (st : LoopState) :
  iter debtors creditors (S n) st
    = match step debtors creditors (iter debtors creditors n st) with
      | Some st' => st'
      | None => iter debtors creditors n st
      end.
Proof.
  revert st. induction n as [|n IH]; intros st.
  - simpl. now destruct (step debtors creditors st).
  - change (iter debtors creditors (S (S n)) st)
      with (match step debtors creditors st with
            | Some st' => iter debtors creditors (S n) st'
            | None => st
            end).
    destruct (step debtors creditors st) as [st1|] eqn:E.
    + rewrite (IH st1). simpl. now rewrite E.
    + simpl. now rewrite E, E.
Qed.

(** After [n] iterations the loop has been left, or it has reached a
    state that the body maps to itself, or the cursors have advanced [n]
    times. *)
Lemma iter_progress (n : nat) :
  let st := iter debtors creditors n (initState balances0) in
  step debtors creditors st = None \/
  step debtors creditors st = Some st \/
  (n <= st_i st + st_j st)%nat.
Proof.
  induction n as [|n IH]; [right; right; simpl; lia|].
  cbv zeta in *. rewrite iter_S_end.
  destruct (step debtors creditors
              (iter debtors creditors n (initState balances0)))
    as [st'|] eqn:E.
  - destruct IH as [IH|[IH|IH]]; [discriminate| |].
    + injection IH as ->. right. left. exact E.
    + destruct (step_progress_or_stuck _ _ E) as [->|Hlt].
      * right. left. exact E.
      * right. right. lia.
  - left. exact E.
Qed.

(** The loop is left within [debtors.length + creditors.length]
    iterations unless it reaches a state that the body maps to itself. *)
Lemma iter_halts_or_sticks :
  let st := iter debtors creditors (length debtors + length creditors)
              (initState balances0) in
  step debtors creditors st = None \/ step debtors creditors st = Some st.
Proof.
  cbv zeta.
  destruct (iter_progress (length debtors + length creditors))
    as [H|[H|H]]; [now left | now right |].
  left. cbv zeta in H.
  destruct (countInv_iter (length debtors + length creditors))
    as (_ & Hi & Hj & _).
  unfold step.
  rewrite (proj2 (lookup_ge_None debtors _)) by lia. reflexivity.
Qed.

End Loop.

(** A state that the body maps to itself is never left. *)
Lemma stuck_forever (debtors creditors : list nat) (st : LoopState) :
  step debtors creditors st = Some st ->
  forall fuel, loop debtors creditors fuel st = None.
Proof.
  intros Hst fuel. unfold loop.
  assert (Hit : iter debtors creditors fuel st = st).
  { induction fuel as [|fuel IH]; simpl; [reflexivity|]. now rewrite Hst. }
  now rewrite Hit, Hst.
Qed.

Lemma iter_add (debtors creditors : list nat) (a b : nat) (st : LoopState) :
  iter debtors creditors (a + b) st
    = iter debtors creditors b (iter debtors creditors a st).
Proof.
  revert st. induction a as [|a IH]; intros st; [reflexivity|].
  simpl. destruct (step debtors creditors st) as [st'|] eqn:E.
  - apply IH.
  - destruct b as [|b]; [reflexivity|]. simpl. now rewrite E.
Qed.

Lemma iter_halted (debtors creditors : list nat) (n : nat) (st : LoopState) :
  step debtors creditors st = None -> iter debtors creditors n st = st.
Proof. intros H. destruct n; [reflexivity|]. simpl. now rewrite H. Qed.

Lemma iter_stuck (debtors creditors : list nat) (n : nat) (st : LoopState) :
  step debtors creditors st = Some st -> iter debtors creditors n st = st.
Proof.
  intros H. induction n as [|n IH]; [reflexivity|]. simpl. now rewrite H.
Qed.

(** A run that reaches a state that the body maps to itself never
    leaves the loop. *)
Lemma stuck_run_forever (debtors creditors : list nat) (m : nat)
    (st : LoopState) :
  step debtors creditors (iter debtors creditors m st)
    = Some (iter debtors creditors m st) ->
  forall fuel, loop debtors creditors fuel st = None.
Proof.
  intros Hm fuel. unfold loop.
  destruct (le_lt_dec m fuel) as [Hle|Hlt].
  - replace fuel with (m + (fuel - m))%nat by lia.
    rewrite iter_add, (iter_stuck _ _ _ _ Hm). now rewrite Hm.
  - destruct (step debtors creditors (iter debtors creditors fuel st))
      eqn:E; [reflexivity|].
    replace m with (fuel + (m - fuel))%nat in Hm by lia.
    rewrite iter_add, (iter_halted _ _ _ _ E) in Hm. congruence.
Qed.

(** ** The arrays [creditors] and [debtors] *)

Lemma filterRefs_In (f : Balance -> bool) (balances : list Balance) (k : nat) :
  In k (filterRefs f balances) <->
  exists p, balances !! k = Some p /\ f p = true.
Proof.
  unfold filterRefs. rewrite filter_In, in_seq. split.
  - intros [_ H]. destruct (balances !! k) as [p|]; [eauto | discriminate].
  - intros (p & Hp & Hf). rewrite Hp. split; [|exact Hf].
    apply lookup_lt_Some in Hp. lia.
Qed.

Lemma filterRefs_length_from (f : Balance -> bool)
    (pre balances : list Balance) :
  length
    (List.filter
       (fun k => match (pre ++ balances) !! k with
                 | Some p => f p
                 | None => false
                 end)
       (seq (length pre) (length balances)))
  = length (List.filter f balances).
Proof.
  revert pre. induction balances as [|b rest IH]; intros pre; [reflexivity|].
  simpl seq. simpl List.filter.
  rewrite (list_lookup_middle pre rest b (length pre) eq_refl).
  specialize (IH (pre ++ [b])).
  rewrite <- app_assoc, length_app in IH. simpl in IH.
  replace (length pre + 1)%nat with (S (length pre)) in IH by lia.
  destruct (f b); simpl; rewrite IH; reflexivity.
Qed.

Lemma filterRefs_length (f : Balance -> bool) (balances : list Balance) :
  length (filterRefs f balances) = length (List.filter f balances).
Proof. apply (filterRefs_length_from f [] balances). Qed.

Lemma insertSorted_Permutation (cmp : nat -> nat -> Q) (x : nat)
    (l : list nat) :
  insertSorted cmp x l ≡ₚ x :: l.
Proof.
  induction l as [|y l IH]; simpl; [reflexivity|].
  destruct (Qgtb (cmp x y) 0); [|reflexivity].
  rewrite IH. apply Permutation_swap.
Qed.

Lemma sortRefs_Permutation (cmp : nat -> nat -> Q) (l : list nat) :
  sortRefs cmp l ≡ₚ l.
Proof.
  induction l as [|x l IH]; simpl; [reflexivity|].
  now rewrite insertSorted_Permutation, IH.
Qed.

Lemma creditorsOf_In (balances : list Balance) (k : nat) :
  In k (creditorsOf balances) <->
  exists p, balances !! k = Some p /\ 0 < balance p.
Proof.
  unfold creditorsOf.
  rewrite <- !list_elem_of_In, sortRefs_Permutation, list_elem_of_In.
  rewrite filterRefs_In. split; intros (p & Hp & Hf); exists p;
    (split; [exact Hp|]); now apply Qgtb_gt.
Qed.

Lemma debtorsOf_In (balances : list Balance) (k : nat) :
  In k (debtorsOf balances) <->
  exists p, balances !! k = Some p /\ balance p < 0.
Proof.
  unfold debtorsOf.
  rewrite <- !list_elem_of_In, sortRefs_Permutation, list_elem_of_In.
  rewrite filterRefs_In. split; intros (p & Hp & Hf); exists p;
    (split; [exact Hp|]); now apply Qltb_lt.
Qed.

Lemma refs_disjoint_of (balances : list Balance) (k : nat) :
  In k (debtorsOf balances) -> In k (creditorsOf balances) -> False.
Proof.
  rewrite debtorsOf_In, creditorsOf_In.
  intros (p & Hp & Hneg) (q & Hq & Hpos).
  assert (p = q) by congruence. subst q. lra.
Qed.

Lemma creditorsOf_length (balances : list Balance) :
  length (creditorsOf balances)
    = length (List.filter (fun p => Qgtb (balance p) 0) balances).
Proof.
  unfold creditorsOf. rewrite sortRefs_Permutation. apply filterRefs_length.
Qed.

Lemma debtorsOf_length (balances : list Balance) :
  length (debtorsOf balances)
    = length (List.filter (fun p => Qltb (balance p) 0) balances).
Proof.
  unfold debtorsOf. rewrite sortRefs_Permutation. apply filterRefs_length.
Qed.


(** ** Number of transfers *)


Example three_way_plan :
  exists summary t1 t2,
    plan 2 three_way = Some (summary, [t1; t2]) /\
    (from t1, to t1) = ("B", "A") /\ amount_sent t1 == 100 /\
    (from t2, to t2) = ("C", "A") /\ amount_sent t2 == 100 /\
    Forall (fun p => balance p == 0) summary.
Proof.
  eexists _, _, _. split; [vm_compute; reflexivity|].
  repeat split. repeat constructor.
Qed.

(** ** A snapshot on which the loop is never left *)

(** C4 fails on this snapshot: validation passes, the balances are
    0.01 and -0.01, the first iteration emits nothing (0.01 is not above
    0.01) and advances no cursor (0.01 is not below 0.01), so the state
    repeats and [GET /settlements] gives no response, whatever the number
    of iterations allowed. *)
Theorem one_cent_never_settles :
  validate cent_people = None /\
  (exists a b,
     computeBalances cent_people = [a; b] /\
     balance a == 0.01 /\ balance b == - 0.01) /\
  step (debtorsOf (computeBalances cent_people))
       (creditorsOf (computeBalances cent_people))
       (initState (computeBalances cent_people))
    = Some (initState (computeBalances cent_people)) /\
  forall fuel, settlementsHandler fuel (Some cent_people) = None.
Proof.
  assert (Hstep :
    step (debtorsOf (computeBalances cent_people))
         (creditorsOf (computeBalances cent_people))
         (initState (computeBalances cent_people))
      = Some (initState (computeBalances cent_people)))
    by (vm_compute; reflexivity).
  split; [reflexivity|]. split.
  - eexists _, _. split; [reflexivity|]. split; reflexivity.
  - split; [exact Hstep|].
    intros fuel. unfold settlementsHandler.
    change (validate cent_people) with (@None ValidationError).
    unfold plan. now rewrite (stuck_forever _ _ _ Hstep fuel).
Qed.

(** ** Accounting of the transfers *)

Lemma reduceSum_alter (f : Balance -> Balance) (store : list Balance)
    (k : nat) (p : Balance) :
  store !! k = Some p ->
  reduceSum balance (alter f k store)
    == reduceSum balance store + (balance (f p) - balance p).
Proof.
  revert k. induction store as [|q store IH]; intros k Hk; [discriminate|].
  destruct k as [|k]; simpl in Hk.
  - injection Hk as ->. change (alter f 0%nat (p :: store)) with (f p :: store).
    rewrite !reduceSum_cons. lra.
  - change (alter f (S k) (q :: store)) with (q :: alter f k store).
    rewrite !reduceSum_cons, (IH k Hk). lra.
Qed.

Lemma isCents_compat (x y : Q) : x == y -> isCents x -> isCents y.
Proof. intros H [n Hn]. exists n. now rewrite <- H. Qed.

Lemma isCents_0 : isCents 0.
Proof. exists 0%Z. reflexivity. Qed.

Lemma isCents_opp (x : Q) : isCents x -> isCents (- x).
Proof.
  intros [n Hn]. exists (- n)%Z. rewrite Hn, inject_Z_opp. field.
Qed.

Lemma isCents_plus (x y : Q) : isCents x -> isCents y -> isCents (x + y).
Proof.
  intros [n Hn] [m Hm]. exists (n + m)%Z.
  rewrite Hn, Hm, inject_Z_plus. field.
Qed.

Lemma isCents_minus (x y : Q) : isCents x -> isCents y -> isCents (x - y).
Proof.
  intros Hx Hy. apply isCents_plus; [exact Hx | now apply isCents_opp].
Qed.

Lemma body_balanceAt (d c : nat) (st : LoopState) :
  d <> c ->
  balanceAt (st_balances (body d c st)) d
    == balanceAt (st_balances st) d + moved d c st /\
  balanceAt (st_balances (body d c st)) c
    == balanceAt (st_balances st) c - moved d c st /\
  forall k, k <> d -> k <> c ->
    balanceAt (st_balances (body d c st)) k = balanceAt (st_balances st) k.
Proof.
  intros Hdc. unfold moved.
  destruct (Qgtb (amountOf d c st) 0.01) eqn:He.
  - now apply body_emit_balances.
  - destruct (body_skip d c st He) as [-> _].
    split; [lra|]. split; [lra|]. reflexivity.
Qed.

Lemma moved_bounds (d c : nat) (st : LoopState) :
  balanceAt (st_balances st) d <= 0 ->
  0 <= balanceAt (st_balances st) c ->
  0 <= moved d c st /\
  moved d c st <= - balanceAt (st_balances st) d /\
  moved d c st <= balanceAt (st_balances st) c.
Proof.
  intros Hd Hc. unfold moved.
  destruct (Qgtb (amountOf d c st) 0.01) eqn:He.
  - apply Qgtb_gt in He. unfold amountOf in *.
    pose proof (Q.le_min_l (- balanceAt (st_balances st) d)
                  (balanceAt (st_balances st) c)).
    pose proof (Q.le_min_r (- balanceAt (st_balances st) d)
                  (balanceAt (st_balances st) c)).
    lra.
  - lra.
Qed.

(** ** The signs of debtors and creditors *)

Lemma balanceAt_debtor (balances : list Balance) (k : nat) :
  In k (debtorsOf balances) -> balanceAt balances k < 0.
Proof.
  rewrite debtorsOf_In. intros (p & Hp & Hneg).
  now rewrite (balanceAt_lookup _ _ _ Hp).
Qed.

Lemma balanceAt_creditor (balances : list Balance) (k : nat) :
  In k (creditorsOf balances) -> 0 < balanceAt balances k.
Proof.
  rewrite creditorsOf_In. intros (p & Hp & Hpos).
  now rewrite (balanceAt_lookup _ _ _ Hp).
Qed.

(** ** Closed systems *)

Lemma reduceSum_ext {A : Type} (f g : A -> Q) (xs : list A) :
  (forall x, In x xs -> f x == g x) -> reduceSum f xs == reduceSum g xs.
Proof.
  induction xs as [|x xs IH]; intros H; [reflexivity|].
  rewrite !reduceSum_cons, (H x (or_introl eq_refl)), IH; [reflexivity|].
  intros y Hy. apply H. now right.
Qed.

Lemma reduceSum_map {A B : Type} (f : B -> Q) (g : A -> B) (xs : list A) :
  reduceSum f (map g xs) == reduceSum (fun x => f (g x)) xs.
Proof.
  induction xs as [|x xs IH]; [reflexivity|].
  simpl map. now rewrite !reduceSum_cons, IH.
Qed.

Lemma reduceSum_zero {A : Type} (xs : list A) :
  reduceSum (fun _ => 0) xs == 0.
Proof.
  induction xs as [|x xs IH]; [reflexivity|]. rewrite reduceSum_cons, IH. lra.
Qed.

Lemma reduceSum_plus {A : Type} (f g : A -> Q) (xs : list A) :
  reduceSum (fun x => f x + g x) xs == reduceSum f xs + reduceSum g xs.
Proof.
  induction xs as [|x xs IH]; [rewrite !reduceSum_nil; lra|].
  rewrite !reduceSum_cons, IH. lra.
Qed.

Lemma reduceSum_minus {A : Type} (f g : A -> Q) (xs : list A) :
  reduceSum (fun x => f x - g x) xs == reduceSum f xs - reduceSum g xs.
Proof.
  induction xs as [|x xs IH]; [rewrite !reduceSum_nil; lra|].
  rewrite !reduceSum_cons, IH. lra.
Qed.

Lemma reduceSum_filter {A : Type} (P : A -> Prop) `{!forall x, Decision (P x)}
    (f : A -> Q) (xs : list A) :
  reduceSum f (filter P xs)
    == reduceSum (fun x => if decide (P x) then f x else 0) xs.
Proof.
  induction xs as [|x xs IH]; [reflexivity|].
  rewrite filter_cons, (reduceSum_cons _ x xs).
  destruct (decide (P x)).
  - now rewrite reduceSum_cons, IH.
  - rewrite IH. lra.
Qed.

Lemma reduceSum_bind {A B : Type} (f : B -> Q) (g : A -> list B)
    (xs : list A) :
  reduceSum f (xs ≫= g) == reduceSum (fun x => reduceSum f (g x)) xs.
Proof.
  induction xs as [|x xs IH]; [reflexivity|].
  rewrite bind_cons, reduceSum_app, reduceSum_cons, IH. reflexivity.
Qed.

(** Exchange of two finite sums. *)
Lemma reduceSum_exchange {A B : Type} (h : A -> B -> Q) (xs : list A)
    (ys : list B) :
  reduceSum (fun x => reduceSum (fun y => h x y) ys) xs
    == reduceSum (fun y => reduceSum (fun x => h x y) xs) ys.
Proof.
  induction xs as [|x xs IH].
  - rewrite reduceSum_nil. symmetry. apply reduceSum_zero.
  - rewrite reduceSum_cons, IH, <- reduceSum_plus.
    apply reduceSum_ext. intros y _. now rewrite reduceSum_cons.
Qed.

(** A sum over distinct keys selects the one key that matches. *)
Lemma reduceSum_select (keys : list string) (key : string) (c : Q) :
  NoDup keys -> key ∈ keys ->
  reduceSum (fun k => if decide (key = k) then c else 0) keys == c.
Proof.
  induction keys as [|k keys IH]; intros Hnd Hin.
  - now apply elem_of_nil in Hin.
  - apply NoDup_cons in Hnd. destruct Hnd as [Hk Hnd].
    rewrite reduceSum_cons. destruct (decide (key = k)) as [->|Hne].
    + assert (H0 : reduceSum (fun k0 => if decide (k = k0) then c else 0) keys
                   == reduceSum (fun _ => 0) keys).
      { apply reduceSum_ext. intros x Hx.
        destruct (decide (k = x)) as [->|_]; [|reflexivity].
        exfalso. apply Hk. now apply list_elem_of_In. }
      rewrite H0, reduceSum_zero. lra.
    + apply elem_of_cons in Hin. destruct Hin as [->|Hin]; [contradiction|].
      rewrite (IH Hnd Hin). lra.
Qed.

(** Rounding each of [n] terms moves their sum by at most [n] half
    hundredths. *)
Lemma reduceSum_round2_error {A : Type} (g : A -> Q) (xs : list A) :
  Qabs (reduceSum (fun x => round2 (g x)) xs - reduceSum g xs)
    <= 0.005 * inject_Z (Z.of_nat (length xs)).
Proof.
  induction xs as [|x xs IH].
  - rewrite !reduceSum_nil. vm_compute. discriminate.
  - rewrite (Qabs_wd _
      ((round2 (g x) - g x)
       + (reduceSum (fun x => round2 (g x)) xs - reduceSum g xs)))
      by (rewrite !reduceSum_cons; lra).
    eapply Qle_trans; [apply Qabs_triangle|].
    pose proof (round2_error (g x)) as Hx.
    change (length (x :: xs)) with (S (length xs)).
    rewrite Nat2Z.inj_succ. unfold Z.succ. rewrite inject_Z_plus.
    change (inject_Z 1) with 1. lra.
Qed.

Lemma paid_total (db : Database) :
  wellFormed db ->
  reduceSum paidOf (findMany db) == reduceSum exp_amount (db_expenses db).
Proof.
  intros (Hnd & Hpay & _). unfold findMany. rewrite reduceSum_map.
  unfold paidOf. simpl person_paid.
  rewrite (reduceSum_ext _
    (fun who =>
       reduceSum (fun e => if decide (exp_paidBy e = who)
                           then exp_amount e else 0) (db_expenses db))).
  - rewrite reduceSum_exchange. apply reduceSum_ext. intros e He.
    apply reduceSum_select; [exact Hnd|].
    rewrite Forall_forall in Hpay. apply Hpay. now apply list_elem_of_In.
  - intros who _. apply (reduceSum_filter (fun e => exp_paidBy e = who)).
Qed.

Lemma owes_total (db : Database) :
  wellFormed db -> closedSystem db ->
  reduceSum owesOf (findMany db) == reduceSum exp_amount (db_expenses db).
Proof.
  intros (Hnd & _ & Hobl) (Hclosed & _).
  set (sh := fun (s : SplitRow) (e : ExpenseRow) =>
               shareOf (mkSplit (sr_type s) (sr_value s) (expenseOf db e))).
  set (T := fun s : SplitRow =>
              reduceSum (fun e => if decide (exp_id e = sr_expense s)
                                  then sh s e else 0) (db_expenses db)).
  unfold findMany. rewrite reduceSum_map. unfold owesOf. simpl person_splits.
  rewrite (reduceSum_ext _
    (fun who =>
       reduceSum (fun s => if decide (sr_person s = who) then T s else 0)
         (db_splits db))).
  2:{ intros who _. rewrite reduceSum_bind.
      rewrite (reduceSum_filter (fun s => sr_person s = who)).
      apply reduceSum_ext. intros s _.
      destruct (decide (sr_person s = who)) as [Hw|Hw]; [|reflexivity].
      rewrite reduceSum_bind.
      rewrite (reduceSum_filter (fun e => exp_id e = sr_expense s)).
      apply reduceSum_ext. intros e _.
      destruct (decide (exp_id e = sr_expense s)) as [Hi|Hi]; [|reflexivity].
      rewrite reduceSum_cons, reduceSum_nil. unfold sh. lra. }
  rewrite reduceSum_exchange.
  rewrite (reduceSum_ext _ T).
  2:{ intros s Hs. apply reduceSum_select; [exact Hnd|].
      rewrite Forall_forall in Hobl. apply Hobl. now apply list_elem_of_In. }
  unfold T. rewrite reduceSum_exchange. apply reduceSum_ext. intros e He.
  rewrite Forall_forall in Hclosed.
  rewrite <- (Hclosed e) by now apply list_elem_of_In.
  unfold splitRowsOf.
  rewrite (reduceSum_filter (fun s => sr_expense s = exp_id e)).
  apply reduceSum_ext. intros s _. fold (sh s e).
  destruct (decide (exp_id e = sr_expense s)) as [H1|H1];
    destruct (decide (sr_expense s = exp_id e)) as [H2|H2];
    congruence || reflexivity.
Qed.




(** * Further properties *)

(** ** Rounding *)

Lemma toFixed2_mono (x y : Q) : x <= y -> (toFixed2 x <= toFixed2 y)%Z.
Proof.
  intros Hxy. unfold toFixed2.
  destruct (Qltb x 0) eqn:Ex; destruct (Qltb y 0) eqn:Ey.
  - apply Z.opp_le_mono. rewrite !Z.opp_involutive.
    apply Qfloor_resp_le. lra.
  - apply Qltb_lt in Ex. apply Qltb_ge in Ey.
    assert (H1 : (0 <= Qfloor (- x * 100 + (1 # 2)))%Z).
    { change 0%Z with (Qfloor 0). apply Qfloor_resp_le. lra. }
    assert (H2 : (0 <= Qfloor (y * 100 + (1 # 2)))%Z).
    { change 0%Z with (Qfloor 0). apply Qfloor_resp_le. lra. }
    lia.
  - apply Qltb_ge in Ex. apply Qltb_lt in Ey. lra.
  - apply Qfloor_resp_le. lra.
Qed.

(** Rounding to hundredths is monotone. *)
Lemma round2_mono (x y : Q) : x <= y -> round2 x <= round2 y.
Proof.
  intros Hxy. unfold round2, Qdiv. change (/ 100) with (1 # 100).
  pose proof (toFixed2_mono x y Hxy) as H. rewrite Zle_Qle in H. lra.
Qed.

Lemma round2_opp (x : Q) : round2 (- x) == - round2 x.
Proof.
  unfold round2, toFixed2.
  destruct (Qlt_le_dec x 0) as [Hneg|Hpos].
  - assert (E1 : Qltb x 0 = true) by now apply Qltb_lt.
    assert (E2 : Qltb (- x) 0 = false) by (apply Qltb_ge; lra).
    rewrite E1, E2, inject_Z_opp. field.
  - destruct (Qeq_dec x 0) as [Hz|Hnz].
    + assert (E1 : Qltb x 0 = false) by (apply Qltb_ge; lra).
      assert (E2 : Qltb (- x) 0 = false) by (apply Qltb_ge; lra).
      rewrite E1, E2.
      rewrite (Qfloor_comp (- x * 100 + (1 # 2)) (1 # 2))
        by (rewrite Hz; reflexivity).
      rewrite (Qfloor_comp (x * 100 + (1 # 2)) (1 # 2))
        by (rewrite Hz; reflexivity).
      reflexivity.
    + assert (E1 : Qltb x 0 = false) by (apply Qltb_ge; lra).
      assert (E2 : Qltb (- x) 0 = true) by (apply Qltb_lt; lra).
      rewrite E1, E2, inject_Z_opp.
      rewrite (Qfloor_comp (- - x * 100 + (1 # 2)) (x * 100 + (1 # 2)))
        by (rewrite Qopp_involutive; reflexivity).
      field.
Qed.

Lemma round2_0 : round2 0 == 0.
Proof. reflexivity. Qed.

(** ** The settlement loop on any input *)

Section BoundedLoop.

Variable balances0 : list Balance.
Variables debtors creditors : list nat.

Hypothesis debtors_neg :
  forall k, In k debtors -> balanceAt balances0 k < 0.
Hypothesis creditors_pos :
  forall k, In k creditors -> 0 < balanceAt balances0 k.

Lemma refs_distinct (k : nat) : In k debtors -> In k creditors -> False.
Proof.
  intros Hd Hc. pose proof (debtors_neg k Hd). pose proof (creditors_pos k Hc).
  lra.
Qed.

Lemma Bounded_init : Bounded balances0 debtors creditors (initState balances0).
Proof.
  constructor; simpl.
  - apply Forall2_same_length_lookup_2; [reflexivity|].
    intros k p q Hp Hq. assert (p = q) by congruence. subst q.
    repeat split.
  - intros k Hk. pose proof (debtors_neg k Hk). lra.
  - intros k Hk. pose proof (creditors_pos k Hk). lra.
  - reflexivity.
  - reflexivity.
  - constructor.
Qed.

Lemma Bounded_records (st : LoopState) (d c : nat) :
  Bounded balances0 debtors creditors st ->
  debtors !! st_i st = Some d ->
  creditors !! st_j st = Some c ->
  d <> c /\ In d debtors /\ In c creditors /\
  exists p0d p0c pd pc,
    balances0 !! d = Some p0d /\ balances0 !! c = Some p0c /\
    st_balances st !! d = Some pd /\ st_balances st !! c = Some pc /\
    name pd = name p0d /\ name pc = name p0c.
Proof.
  intros HB Hd Hc.
  pose proof (lookup_In _ _ _ Hd) as Hind.
  pose proof (lookup_In _ _ _ Hc) as Hinc.
  split; [intros ->; exact (refs_distinct c Hind Hinc)|].
  split; [exact Hind|]. split; [exact Hinc|].
  destruct (balanceAt_nonzero balances0 d) as [p0d H0d].
  { pose proof (debtors_neg d Hind). lra. }
  destruct (balanceAt_nonzero balances0 c) as [p0c H0c].
  { pose proof (creditors_pos c Hinc). lra. }
  destruct (Forall2_lookup_l _ _ _ _ _ (bd_frame st HB) H0d)
    as (pd & Hpd & Hnd & _).
  destruct (Forall2_lookup_l _ _ _ _ _ (bd_frame st HB) H0c)
    as (pc & Hpc & Hnc & _).
  exists p0d, p0c, pd, pc. auto 10.
Qed.

Lemma Bounded_body (st : LoopState) (d c : nat) :
  Bounded balances0 debtors creditors st ->
  debtors !! st_i st = Some d ->
  creditors !! st_j st = Some c ->
  Bounded balances0 debtors creditors (body d c st).
Proof.
  intros HB Hd Hc.
  destruct (Bounded_records st d c HB Hd Hc)
    as (Hdc & Hind & Hinc & p0d & p0c & pd & pc
        & H0d & H0c & Hpd & Hpc & Hnd & Hnc).
  destruct (body_balanceAt d c st Hdc) as (Hbd & Hbc & Hbk).
  destruct (bd_debtors st HB d Hind) as [Hd0 Hd1].
  destruct (bd_creditors st HB c Hinc) as [Hc0 Hc1].
  destruct (moved_bounds d c st Hd1 Hc0) as (Hm0 & Hmd & Hmc).
  constructor.
  - destruct (Qgtb (amountOf d c st) 0.01) eqn:He.
    + destruct (body_emit d c st He) as [-> _].
      apply Forall2_alter_r; [apply Forall2_alter_r|].
      * exact (bd_frame st HB).
      * intros x y _ _ H. exact H.
      * intros x y _ _ H. exact H.
    + destruct (body_skip d c st He) as [-> _]. exact (bd_frame st HB).
  - intros k Hk. destruct (bd_debtors st HB k Hk) as [H0 H1].
    assert (k <> c) by (intros ->; exact (refs_distinct c Hk Hinc)).
    destruct (decide (k = d)) as [->|Hkd].
    + rewrite Hbd. lra.
    + rewrite (Hbk k Hkd) by assumption. auto.
  - intros k Hk. destruct (bd_creditors st HB k Hk) as [H0 H1].
    assert (k <> d) by (intros ->; exact (refs_distinct d Hind Hk)).
    destruct (decide (k = c)) as [->|Hkc].
    + rewrite Hbc. lra.
    + rewrite (Hbk k) by assumption. auto.
  - intros k Hkd Hkc. rewrite <- (bd_others st HB k Hkd Hkc).
    destruct (Qgtb (amountOf d c st) 0.01) eqn:He.
    + destruct (body_emit d c st He) as [-> _].
      rewrite !list_lookup_alter_ne; [reflexivity| |];
        intros ->; contradiction.
    + destruct (body_skip d c st He) as [-> _]. reflexivity.
  - rewrite <- (bd_sum st HB).
    destruct (Qgtb (amountOf d c st) 0.01) eqn:He.
    + destruct (body_emit d c st He) as [-> _].
      rewrite (reduceSum_alter _ _ c pc)
        by (rewrite list_lookup_alter_ne by congruence; exact Hpc).
      rewrite (reduceSum_alter _ _ d pd Hpd). simpl. lra.
    + destruct (body_skip d c st He) as [-> _]. reflexivity.
  - destruct (Qgtb (amountOf d c st) 0.01) eqn:He.
    + destruct (body_emit d c st He) as [_ ->].
      apply Forall_app. split; [exact (bd_emitted st HB)|].
      constructor; [|constructor].
      exists d, c, p0d, p0c. simpl.
      unfold moved in Hmd, Hmc. rewrite He in Hmd, Hmc.
      pose proof (debtors_neg d Hind) as Hneg.
      pose proof (creditors_pos c Hinc) as Hpos.
      rewrite (balanceAt_lookup _ _ _ H0d) in Hneg, Hd0.
      rewrite (balanceAt_lookup _ _ _ H0c) in Hpos, Hc1.
      apply Qgtb_gt in He.
      split; [exact H0d|]. split; [exact H0c|]. split; [exact Hdc|].
      split; [exact Hneg|]. split; [exact Hpos|].
      split; [unfold nameAt; now rewrite Hpd|].
      split; [unfold nameAt; now rewrite Hpc|].
      split; [|split].
      * change 0.01 with (round2 0.01). apply round2_mono. lra.
      * apply round2_mono. lra.
      * apply round2_mono. lra.
    + destruct (body_skip d c st He) as [_ ->]. exact (bd_emitted st HB).
Qed.

Lemma Bounded_iter (n : nat) :
  Bounded balances0 debtors creditors
    (iter debtors creditors n (initState balances0)).
Proof.
  apply iter_invariant; [exact Bounded_init|].
  intros st d c HB Hd Hc. now apply Bounded_body.
Qed.

End BoundedLoop.

Lemma Bounded_plan (balances : list Balance) (n : nat) :
  Bounded balances (debtorsOf balances) (creditorsOf balances)
    (iter (debtorsOf balances) (creditorsOf balances) n (initState balances)).
Proof.
  apply Bounded_iter; [apply balanceAt_debtor | apply balanceAt_creditor].
Qed.



(** ** Validation and aggregation *)

(** X7. Whether a snapshot is rejected does not depend on the order in
    which the persons are listed (the error reported may). *)
Theorem validate_order_independent (people people' : list Person) :
  people ≡ₚ people' ->
  (validate people = None <-> validate people' = None) /\
  ((exists data, balancesHandler (Some people) = BalancesOk data) <->
   (exists data, balancesHandler (Some people') = BalancesOk data)).
Proof.
  intros Hperm.
  assert (Hv : validate people = None <-> validate people' = None).
  { rewrite !validate_None. split; intros H person split Hp Hs;
      apply (H person split); try exact Hs;
      apply list_elem_of_In; apply list_elem_of_In in Hp.
    - now rewrite Hperm.
    - now rewrite <- Hperm. }
  split; [exact Hv|].
  unfold balancesHandler.
  destruct (validate people) eqn:E1; destruct (validate people') eqn:E2.
  - split; intros [data H]; discriminate.
  - exfalso. assert (H : @None ValidationError = None) by reflexivity.
    apply Hv in H. discriminate.
  - exfalso. assert (H : @None ValidationError = None) by reflexivity.
    apply Hv in H. discriminate.
  - split; intros _; eauto.
Qed.

Lemma validate_order_independent_witness :
  (validate percent_100_people = None <->
   validate (rev percent_100_people) = None) /\
  ((exists data, balancesHandler (Some percent_100_people) = BalancesOk data)
   <->
   (exists data,
      balancesHandler (Some (rev percent_100_people)) = BalancesOk data)).
Proof.
  apply (validate_order_independent percent_100_people
           (rev percent_100_people)).
  simpl. apply Permutation_swap.
Defined.

Lemma percentage_shares_sum (e : Expense) (rows : list ExpenseSplit) :
  Forall (fun row => row_splitType row = percentage) rows ->
  reduceSum
    (fun row => shareOf (mkSplit (row_splitType row) (row_value row) e)) rows
  == reduceSum row_value rows / 100 * amount e.
Proof.
  induction rows as [|row rows IH]; intros Hrows.
  - rewrite !reduceSum_nil. field.
  - apply Forall_cons in Hrows. destruct Hrows as [Hrow Hrows].
    rewrite !reduceSum_cons, (IH Hrows).
    unfold shareOf at 1. simpl splitType. rewrite Hrow.
    simpl value. simpl expense. field.
Qed.



(** X9. A snapshot in which every split is an equal split is never
    rejected: both handlers go on to the balance map. *)
Theorem equal_splits_always_valid (people : list Person) :
  (forall person split,
     In person people -> In split (person_splits person) ->
     splitType split = equal) ->
  validate people = None /\
  balancesHandler (Some people) = BalancesOk (computeBalances people) /\
  forall fuel err,
    settlementsHandler fuel (Some people) <> Some (Status400 err).
Proof.
  intros Hall.
  assert (Hv : validate people = None).
  { apply validate_None. intros person split Hp Hs.
    apply checkSplit_equal. now apply (Hall person split). }
  split; [exact Hv|]. unfold balancesHandler, settlementsHandler.
  rewrite Hv. split; [reflexivity|].
  intros fuel err. destruct (plan fuel _) as [[? ?]|]; discriminate.
Qed.

Lemma equal_splits_always_valid_witness :
  validate equal_300_people = None /\
  balancesHandler (Some equal_300_people)
    = BalancesOk (computeBalances equal_300_people) /\
  forall fuel err,
    settlementsHandler fuel (Some equal_300_people) <> Some (Status400 err).
Proof.
  apply (equal_splits_always_valid equal_300_people).
  intros person split [<-|[<-|[<-|[]]]] [<-|[]]; reflexivity.
Defined.

Lemma isCents_within (x : Q) : isCents x -> Qabs x <= 0.015 -> Qabs x <= 0.01.
Proof.
  intros [n Hn] Habs. rewrite Hn in *.
  apply Qabs_Qle_condition in Habs. apply Qabs_Qle_condition.
  unfold Qdiv in *. change (/ 100) with (1 # 100) in *.
  assert (H1 : inject_Z (-2) < inject_Z n)
    by (change (inject_Z (-2)) with (-2); lra).
  assert (H2 : inject_Z n < inject_Z 2)
    by (change (inject_Z 2) with 2; lra).
  rewrite <- Zlt_Qlt in H1, H2.
  assert (H3 : (-1 <= n)%Z) by lia. assert (H4 : (n <= 1)%Z) by lia.
  rewrite Zle_Qle in H3, H4.
  change (inject_Z (-1)) with (-1) in H3. change (inject_Z 1) with 1 in H4.
  lra.
Qed.


Lemma reduceSum_nonneg {A : Type} (f : A -> Q) (xs : list A) :
  (forall x, In x xs -> 0 <= f x) -> 0 <= reduceSum f xs.
Proof.
  induction xs as [|x xs IH]; intros H.
  - rewrite reduceSum_nil. lra.
  - rewrite reduceSum_cons.
    assert (0 <= f x) by (apply H; now left).
    assert (0 <= reduceSum f xs) by (apply IH; intros y Hy; apply H; now right).
    lra.
Qed.

Lemma shareOf_nonneg (split : Split) :
  0 <= value split -> 0 <= amount (expense split) -> 0 <= shareOf split.
Proof.
  intros Hv Ha. unfold shareOf. destruct (splitType split).
  - apply Qle_shift_div_l.
    + unfold numPeople. destruct (length (splits (expense split)));
        [reflexivity|].
      rewrite <- (Zlt_Qlt 0). lia.
    + lra.
  - unfold Qdiv. change (/ 100) with (1 # 100). nra.
  - exact Hv.
Qed.



(** X12. On a snapshot read from the tables every visited expense has
    at least one row, among them the visiting split's own, so the count
    of participants is the number of rows and the replacement of a zero
    count by 1 is never used. *)
Theorem visited_expense_has_rows (db : Database) (person : Person)
    (split : Split) :
  In person (findMany db) ->
  In split (person_splits person) ->
  In (mkExpenseSplit (splitType split) (value split))
     (splits (expense split)) /\
  numPeople split = length (splits (expense split)).
Proof.
  unfold findMany. intros Hp Hs.
  apply in_map_iff in Hp. destruct Hp as (who & <- & _).
  simpl in Hs. apply list_elem_of_In in Hs.
  apply list_elem_of_bind in Hs. destruct Hs as (s & Hs & Hsin).
  apply list_elem_of_bind in Hs. destruct Hs as (e & He & Hein).
  apply list_elem_of_singleton in He. subst split.
  apply list_elem_of_filter in Hsin. destruct Hsin as [_ Hsin].
  apply list_elem_of_filter in Hein. destruct Hein as [Hid _].
  assert (Hrow : In (mkExpenseSplit (sr_type s) (sr_value s))
                   (splits (expenseOf db e))).
  { simpl. apply in_map_iff. exists s. split; [reflexivity|].
    apply list_elem_of_In. unfold splitRowsOf.
    apply list_elem_of_filter. split; [congruence | exact Hsin]. }
  split; [exact Hrow|].
  unfold numPeople. simpl expense.
  destruct (splits (expenseOf db e)); [destruct Hrow | reflexivity].
Qed.

Lemma visited_expense_has_rows_witness :
  In (mkExpenseSplit equal 0)
     (splits (expenseOf seven_way (mkExpenseRow 1%Z 100 "P0"))) /\
  numPeople (mkSplit equal 0
               (expenseOf seven_way (mkExpenseRow 1%Z 100 "P0")))
    = length (splits (expenseOf seven_way (mkExpenseRow 1%Z 100 "P0"))).
Proof.
  apply (visited_expense_has_rows seven_way
           (mkPerson "P0" [mkExpenseRow 1%Z 100 "P0"]
              [mkSplit equal 0
                 (expenseOf seven_way (mkExpenseRow 1%Z 100 "P0"))])
           (mkSplit equal 0
              (expenseOf seven_way (mkExpenseRow 1%Z 100 "P0")))).
  - vm_compute. left. reflexivity.
  - simpl. left. reflexivity.
Defined.

(** ** Category breakdown *)

Lemma reduceSum_scale {A : Type} (f : A -> Q) (c : Q) (xs : list A) :
  reduceSum (fun x => f x * c) xs == reduceSum f xs * c.
Proof.
  induction xs as [|x xs IH]; [rewrite !reduceSum_nil; lra|].
  rewrite !reduceSum_cons, IH. lra.
Qed.

Lemma reduceSum_pos {A : Type} (f : A -> Q) (xs : list A) :
  xs <> [] -> (forall x, In x xs -> 0 < f x) -> 0 < reduceSum f xs.
Proof.
  intros Hne H. destruct xs as [|x xs]; [congruence|].
  rewrite reduceSum_cons.
  assert (0 < f x) by (apply H; now left).
  assert (0 <= reduceSum f xs).
  { apply reduceSum_nonneg. intros y Hy. apply Qlt_le_weak, H. now right. }
  lra.
Qed.

Lemma reduceSum_member_le {A : Type} (f : A -> Q) (xs : list A) (x : A) :
  (forall y, In y xs -> 0 <= f y) -> In x xs -> f x <= reduceSum f xs.
Proof.
  induction xs as [|y xs IH]; intros Hpos Hin; [destruct Hin|].
  rewrite reduceSum_cons.
  assert (0 <= f y) by (apply Hpos; now left).
  assert (0 <= reduceSum f xs)
    by (apply reduceSum_nonneg; intros z Hz; apply Hpos; now right).
  destruct Hin as [->|Hin].
  - lra.
  - assert (f x <= reduceSum f xs)
      by (apply IH; [intros z Hz; apply Hpos; now right | exact Hin]).
    lra.
Qed.

Lemma categoryExpenses_breakdown (grouped : list CategoryGroup) :
  report_breakdown (categoryExpenses grouped)
    = map (fun group =>
             {| share_category := group_category group;
                share_total := round2 (group_sum group);
                share_percentage :=
                  round2 (group_sum group / reduceSum group_sum grouped
                          * 100) |})
        grouped.
Proof. reflexivity. Qed.






(** ** Writing expenses *)

Lemma addNames_cons (n : string) (names persons : list string) :
  addNames (n :: names) persons
    = addNames names (if decide (n ∈ persons) then persons
                      else persons ++ [n]).
Proof. reflexivity. Qed.

Lemma addNames_elem (names persons : list string) (x : string) :
  x ∈ addNames names persons <-> x ∈ persons \/ x ∈ names.
Proof.
  revert persons. induction names as [|n names IH]; intros persons.
  - simpl. rewrite elem_of_nil. tauto.
  - rewrite addNames_cons, IH, elem_of_cons.
    destruct (decide (n ∈ persons)) as [Hin|Hout].
    + split; [tauto|]. intros [H|[->|H]]; tauto.
    + rewrite elem_of_app, list_elem_of_singleton. tauto.
Qed.

Lemma addNames_NoDup (names persons : list string) :
  NoDup persons -> NoDup (addNames names persons).
Proof.
  revert persons. induction names as [|n names IH]; intros persons Hnd;
    [exact Hnd|].
  rewrite addNames_cons. apply IH.
  destruct (decide (n ∈ persons)) as [Hin|Hout]; [exact Hnd|].
  apply NoDup_app. split; [exact Hnd|]. split.
  - intros x Hx Hx'. apply list_elem_of_singleton in Hx'. now subst x.
  - apply NoDup_singleton.
Qed.

Lemma addNames_prefix (names persons : list string) :
  persons `prefix_of` addNames names persons.
Proof.
  revert persons. induction names as [|n names IH]; intros persons;
    [reflexivity|].
  rewrite addNames_cons.
  destruct (decide (n ∈ persons)) as [Hin|Hout]; [apply IH|].
  etransitivity; [|apply IH]. now apply prefix_app_r.
Qed.

Lemma addNames_id (names persons : list string) :
  (forall n, n ∈ names -> n ∈ persons) -> addNames names persons = persons.
Proof.
  induction names as [|n names IH]; intros H; [reflexivity|].
  rewrite addNames_cons.
  destruct (decide (n ∈ persons)) as [Hin|Hout].
  - apply IH. intros m Hm. apply H. now right.
  - exfalso. apply Hout, H. now left.
Qed.

Lemma addNames_app (a b persons : list string) :
  addNames (a ++ b) persons = addNames b (addNames a persons).
Proof. unfold addNames. apply fold_left_app. Qed.

Lemma upsertPerson_spec (who : string) (db : Database) :
  upsertPerson who db
    = {| db_persons := addNames [who] (db_persons db);
         db_expenses := db_expenses db;
         db_splits := db_splits db |}.
Proof.
  unfold upsertPerson, addNames. simpl.
  destruct (decide (who ∈ db_persons db)); [now destruct db | reflexivity].
Qed.

Lemma addSplits_spec (eid : ExpenseId) (items : list SplitItem)
    (db : Database) :
  addSplits eid items db
    = {| db_persons := addNames (map item_name items) (db_persons db);
         db_expenses := db_expenses db;
         db_splits := db_splits db ++ map (splitRowOf eid) items |}.
Proof.
  revert db. induction items as [|item items IH]; intros db.
  - simpl. rewrite app_nil_r. now destruct db.
  - change (addSplits eid (item :: items) db)
      with (addSplits eid items (addSplit eid db item)).
    rewrite IH. unfold addSplit. rewrite upsertPerson_spec. simpl.
    rewrite <- app_assoc. reflexivity.
Qed.

Lemma writtenExpense_spec (newId : ExpenseId) (amount : Q) (paidBy : string)
    (items : list SplitItem) (db : Database) :
  writtenExpense newId amount paidBy items db
    = {| db_persons :=
           addNames (paidBy :: map item_name items) (db_persons db);
         db_expenses := db_expenses db ++ [mkExpenseRow newId amount paidBy];
         db_splits := db_splits db ++ map (splitRowOf newId) items |}.
Proof.
  unfold writtenExpense. rewrite addSplits_spec, upsertPerson_spec.
  reflexivity.
Qed.

Lemma postExpense_valid (newId : ExpenseId) (body : ExpenseBody)
    (db : Database) :
  expenseData body = true ->
  postExpense newId body db
    = (Created201
         (mkExpenseRow newId (body_amount body) (body_paid_by body)),
       writtenExpense newId (body_amount body) (body_paid_by body)
         (body_split body) db).
Proof. intros H. unfold postExpense. now rewrite H. Qed.

Lemma postExpense_invalid (newId : ExpenseId) (body : ExpenseBody)
    (db : Database) :
  expenseData body = false ->
  postExpense newId body db = (InvalidData400, db).
Proof. intros H. unfold postExpense. now rewrite H. Qed.

Lemma wellFormed_writtenExpense (newId : ExpenseId) (amount : Q)
    (paidBy : string) (items : list SplitItem) (db : Database) :
  wellFormed db -> wellFormed (writtenExpense newId amount paidBy items db).
Proof.
  intros (Hnd & Hpay & Hobl). rewrite writtenExpense_spec.
  unfold wellFormed. cbn [db_persons db_expenses db_splits].
  split; [|split].
  - now apply addNames_NoDup.
  - apply Forall_app. split.
    + eapply Forall_impl; [exact Hpay|]. intros e He.
      apply addNames_elem. now left.
    + constructor; [|constructor]. cbn [exp_paidBy].
      apply addNames_elem. right. now left.
  - apply Forall_app. split.
    + eapply Forall_impl; [exact Hobl|]. intros s Hs.
      apply addNames_elem. now left.
    + apply Forall_forall. intros s Hs.
      apply list_elem_of_In, in_map_iff in Hs.
      destruct Hs as (item & <- & Hin).
      cbn [sr_person splitRowOf]. apply addNames_elem. right. right.
      apply list_elem_of_In, in_map_iff. eauto.
Qed.

(** X17. [POST /expenses] keeps the tables well formed, whatever the
    body and the id: person names stay distinct and every payer and
    obligor is a person. *)
Theorem post_keeps_wellFormed (newId : ExpenseId) (body : ExpenseBody)
    (db : Database) :
  wellFormed db -> wellFormed (snd (postExpense newId body db)).
Proof.
  intros Hwf. destruct (expenseData body) eqn:E.
  - rewrite (postExpense_valid _ _ _ E). cbn [snd].
    now apply wellFormed_writtenExpense.
  - rewrite (postExpense_invalid _ _ _ E). exact Hwf.
Qed.

Lemma post_keeps_wellFormed_witness :
  wellFormed (snd (postExpense 1%Z dinner emptyDb)).
Proof.
  apply (post_keeps_wellFormed 1%Z dinner emptyDb).
  split; [|split]; constructor.
Defined.

(** X18. A [POST /expenses] whose body passes the schema answers 201
    with the created row and appends: the expense after the existing
    expenses, one split row per item of the request, in order, after the
    existing splits, and the persons not yet known after the existing
    persons.  No existing row changes. *)
Theorem post_appends (newId : ExpenseId) (body : ExpenseBody)
    (db : Database) :
  expenseData body = true ->
  let row := mkExpenseRow newId (body_amount body) (body_paid_by body) in
  let db' := snd (postExpense newId body db) in
  fst (postExpense newId body db) = Created201 row /\
  db_expenses db' = db_expenses db ++ [row] /\
  db_splits db' = db_splits db ++ map (splitRowOf newId) (body_split body) /\
  db_persons db `prefix_of` db_persons db' /\
  forall who,
    who ∈ db_persons db' <->
    who ∈ db_persons db \/ who = body_paid_by body \/
    who ∈ map item_name (body_split body).
Proof.
  intros Hv row db'. unfold db'. rewrite (postExpense_valid _ _ _ Hv).
  cbn [fst snd]. rewrite writtenExpense_spec.
  cbn [db_persons db_expenses db_splits].
  split; [reflexivity|]. split; [reflexivity|]. split; [reflexivity|].
  split; [apply addNames_prefix|].
  intros who. rewrite addNames_elem, elem_of_cons. reflexivity.
Qed.

Lemma post_appends_witness :
  let row := mkExpenseRow 1%Z (body_amount dinner) (body_paid_by dinner) in
  let db' := snd (postExpense 1%Z dinner emptyDb) in
  fst (postExpense 1%Z dinner emptyDb) = Created201 row /\
  db_expenses db' = db_expenses emptyDb ++ [row] /\
  db_splits db'
    = db_splits emptyDb ++ map (splitRowOf 1%Z) (body_split dinner) /\
  db_persons emptyDb `prefix_of` db_persons db' /\
  forall who,
    who ∈ db_persons db' <->
    who ∈ db_persons emptyDb \/ who = body_paid_by dinner \/
    who ∈ map item_name (body_split dinner).
Proof.
  apply (post_appends 1%Z dinner emptyDb). reflexivity.
Defined.

Lemma filter_none {A : Type} (P : A -> Prop) `{!forall x, Decision (P x)}
    (l : list A) :
  Forall (fun x => ~ P x) l -> filter P l = [].
Proof.
  induction 1 as [|x l Hx _ IH]; [reflexivity|].
  rewrite filter_cons. now destruct (decide (P x)).
Qed.

Lemma filter_all {A : Type} (P : A -> Prop) `{!forall x, Decision (P x)}
    (l : list A) :
  Forall P l -> filter P l = l.
Proof.
  induction 1 as [|x l Hx _ IH]; [reflexivity|].
  rewrite filter_cons. destruct (decide (P x)); [now rewrite IH | contradiction].
Qed.

Lemma splitRowsOf_written_new (newId : ExpenseId) (amount : Q)
    (paidBy : string) (items : list SplitItem) (db : Database) :
  Forall (fun s => sr_expense s <> newId) (db_splits db) ->
  splitRowsOf (writtenExpense newId amount paidBy items db)
    (mkExpenseRow newId amount paidBy)
  = map (splitRowOf newId) items.
Proof.
  intros Hfresh. unfold splitRowsOf. rewrite writtenExpense_spec.
  cbn [db_splits exp_id]. rewrite filter_app.
  rewrite (filter_none (fun s => sr_expense s = newId)) by exact Hfresh.
  apply filter_all. apply Forall_forall. intros s Hs.
  apply list_elem_of_In, in_map_iff in Hs. now destruct Hs as (item & <- & _).
Qed.

Lemma splitRowsOf_written_old (newId : ExpenseId) (amount : Q)
    (paidBy : string) (items : list SplitItem) (db : Database)
    (e : ExpenseRow) :
  exp_id e <> newId ->
  splitRowsOf (writtenExpense newId amount paidBy items db) e
    = splitRowsOf db e.
Proof.
  intros Hid. unfold splitRowsOf. rewrite writtenExpense_spec.
  cbn [db_splits]. rewrite filter_app.
  rewrite (filter_none (fun s => sr_expense s = exp_id e) (map _ items)).
  - apply app_nil_r.
  - apply Forall_forall. intros s Hs.
    apply list_elem_of_In, in_map_iff in Hs.
    destruct Hs as (item & <- & _). cbn [sr_expense splitRowOf]. congruence.
Qed.

Lemma findMany_person (db : Database) (who : string) :
  who ∈ db_persons db ->
  exists person,
    In person (findMany db) /\ person_name person = who /\
    person_paid person
      = filter (fun e => exp_paidBy e = who) (db_expenses db) /\
    person_splits person
      = (s ← filter (fun s => sr_person s = who) (db_splits db);
         e ← filter (fun e => exp_id e = sr_expense s) (db_expenses db);
         [ mkSplit (sr_type s) (sr_value s) (expenseOf db e) ]).
Proof.
  intros Hin. eexists. split.
  - unfold findMany. apply in_map_iff. exists who.
    split; [reflexivity | now apply list_elem_of_In].
  - repeat split.
Qed.

Lemma totalSplit_expenseOf (db : Database) (e : ExpenseRow) :
  totalSplit (expenseOf db e) == reduceSum sr_value (splitRowsOf db e).
Proof.
  unfold totalSplit, expenseOf. cbn [splits]. rewrite reduceSum_map.
  reflexivity.
Qed.



Lemma expenseOf_written_old (newId : ExpenseId) (amount : Q)
    (paidBy : string) (items : list SplitItem) (db : Database)
    (e : ExpenseRow) :
  exp_id e <> newId ->
  expenseOf (writtenExpense newId amount paidBy items db) e = expenseOf db e.
Proof.
  intros Hid. unfold expenseOf. now rewrite splitRowsOf_written_old.
Qed.

Lemma closedSystem_writtenExpense (newId : ExpenseId) (amount : Q)
    (paidBy : string) (items : list SplitItem) (db : Database) :
  closedSystem db ->
  freshId newId db ->
  items <> [] ->
  Forall (fun item => item_splitType item = equal) items ->
  In paidBy (map item_name items) ->
  closedSystem (writtenExpense newId amount paidBy items db).
Proof.
  intros (Hshares & Hpayers) (Hfe & Hfs) Hne Hequal Hpayer.
  set (dbw := writtenExpense newId amount paidBy items db).
  set (row := mkExpenseRow newId amount paidBy).
  assert (Hdbw : dbw = _) by apply writtenExpense_spec.
  assert (Hrows : splitRowsOf dbw row = map (splitRowOf newId) items)
    by now apply splitRowsOf_written_new.
  assert (He : db_expenses dbw = db_expenses db ++ [row])
    by now rewrite Hdbw.
  assert (Hs : db_splits dbw = db_splits db ++ map (splitRowOf newId) items)
    by now rewrite Hdbw.
  unfold closedSystem. rewrite He. split.
  - apply Forall_app. split.
    + rewrite Forall_forall in Hshares, Hfe. apply Forall_forall.
      intros e Hin. unfold dbw.
      rewrite (expenseOf_written_old _ _ _ _ _ e (Hfe e Hin)).
      rewrite (splitRowsOf_written_old _ _ _ _ _ e (Hfe e Hin)).
      now apply Hshares.
    + constructor; [|constructor]. rewrite Hrows.
      assert (Hsplits : splits (expenseOf dbw row) <> []).
      { unfold expenseOf. cbn [splits]. rewrite Hrows.
        destruct items; [congruence | discriminate]. }
      assert (Hsp : splits (expenseOf dbw row)
                    = map (fun item =>
                             mkExpenseSplit (item_splitType item)
                               (item_value item)) items).
      { unfold expenseOf. cbn [splits]. rewrite Hrows, map_map.
        reflexivity. }
      pose proof (equal_shares_sum (expenseOf dbw row) Hsplits) as Hsum.
      rewrite Hsp in Hsum. rewrite reduceSum_map in Hsum.
      rewrite reduceSum_map. eapply Qeq_trans; [|exact Hsum].
      apply reduceSum_ext. intros item Hin. rewrite Forall_forall in Hequal.
      cbn [sr_type sr_value splitRowOf row_value].
      rewrite (Hequal item) by now apply list_elem_of_In.
      reflexivity.
  - apply Forall_app. split.
    + eapply Forall_impl; [exact Hpayers|]. intros e Hex. rewrite Hs.
      apply Exists_app. now left.
    + constructor; [|constructor]. rewrite Hs. apply Exists_app. right.
      apply in_map_iff in Hpayer. destruct Hpayer as (item & Hname & Hin).
      apply Exists_exists. exists (splitRowOf newId item). split.
      * apply list_elem_of_In, in_map_iff. eauto.
      * exact Hname.
Qed.

(** X20. Posting an expense split equally among persons that include
    the payer keeps a closed system closed, when the id is new to the
    tables: the new expense is allocated in full and no other expense
    changes. *)
Theorem post_equal_split_keeps_closed (newId : ExpenseId)
    (body : ExpenseBody) (db : Database) :
  closedSystem db ->
  freshId newId db ->
  expenseData body = true ->
  Forall (fun item => item_splitType item = equal) (body_split body) ->
  In (body_paid_by body) (map item_name (body_split body)) ->
  closedSystem (snd (postExpense newId body db)).
Proof.
  intros Hclosed Hfresh Hv Hequal Hpayer.
  rewrite (postExpense_valid _ _ _ Hv). cbn [snd].
  apply closedSystem_writtenExpense; try assumption.
  intros Hnil. rewrite Hnil in Hpayer. destruct Hpayer.
Qed.

Lemma post_equal_split_keeps_closed_witness :
  closedSystem (snd (postExpense 1%Z dinner emptyDb)).
Proof.
  apply (post_equal_split_keeps_closed 1%Z dinner emptyDb).
  - split; constructor.
  - split; constructor.
  - reflexivity.
  - repeat constructor.
  - simpl. auto.
Defined.

(** X21. The scheduled rent job writes nothing unless the day of the
    month is 1; on the 1st it adds one expense of 30000 paid by Shantanu
    with three equal splits, which keeps the tables well formed and, the
    id being new, a closed system closed. *)
Theorem rentJob_keeps_invariants (dayOfMonth : nat) (newId : ExpenseId)
    (db : Database) :
  wellFormed db ->
  closedSystem db ->
  freshId newId db ->
  wellFormed (rentJob dayOfMonth newId db) /\
  closedSystem (rentJob dayOfMonth newId db) /\
  (dayOfMonth <> 1%nat -> rentJob dayOfMonth newId db = db) /\
  (dayOfMonth = 1%nat ->
   db_expenses (rentJob dayOfMonth newId db)
     = db_expenses db ++ [mkExpenseRow newId 30000 "Shantanu"] /\
   db_splits (rentJob dayOfMonth newId db)
     = db_splits db ++ map (splitRowOf newId) rentSplit).
Proof.
  intros Hwf Hclosed Hfresh. unfold rentJob.
  destruct (Nat.eqb_spec dayOfMonth 1) as [->|Hday]; cbv zeta.
  - change (addSplits newId rentSplit
              (createExpense (mkExpenseRow newId 30000 "Shantanu")
                 (upsertPerson "Shantanu" db)))
      with (writtenExpense newId 30000 "Shantanu" rentSplit db).
    split; [now apply wellFormed_writtenExpense|]. split.
    + apply closedSystem_writtenExpense; try assumption.
      * discriminate.
      * repeat constructor.
      * simpl. auto.
    + split; [congruence|]. intros _.
      rewrite writtenExpense_spec. split; reflexivity.
  - split; [exact Hwf|]. split; [exact Hclosed|].
    split; [reflexivity | congruence].
Qed.

Lemma rentJob_keeps_invariants_witness :
  wellFormed (rentJob 1 1%Z emptyDb) /\
  closedSystem (rentJob 1 1%Z emptyDb) /\
  (1%nat <> 1%nat -> rentJob 1 1%Z emptyDb = emptyDb) /\
  (1%nat = 1%nat ->
   db_expenses (rentJob 1 1%Z emptyDb)
     = db_expenses emptyDb ++ [mkExpenseRow 1%Z 30000 "Shantanu"] /\
   db_splits (rentJob 1 1%Z emptyDb)
     = db_splits emptyDb ++ map (splitRowOf 1%Z) rentSplit).
Proof.
  apply (rentJob_keeps_invariants 1 1%Z emptyDb).
  - split; [|split]; constructor.
  - split; constructor.
  - split; constructor.
Defined.

Lemma rewrittenExpense_spec (eid : ExpenseId) (amount : Q) (paidBy : string)
    (items : list SplitItem) (db : Database) :
  rewrittenExpense eid amount paidBy items db
    = {| db_persons :=
           addNames (paidBy :: map item_name items) (db_persons db);
         db_expenses :=
           map (fun e => if decide (exp_id e = eid)
                         then mkExpenseRow eid amount paidBy else e)
             (db_expenses db);
         db_splits :=
           filter (fun s => sr_expense s <> eid) (db_splits db)
             ++ map (splitRowOf eid) items |}.
Proof.
  unfold rewrittenExpense. rewrite addSplits_spec, upsertPerson_spec.
  unfold deleteSplits, updateExpense.
  cbn [db_persons db_expenses db_splits].
  now rewrite <- addNames_app.
Qed.

Lemma putExpense_found (eid : ExpenseId) (body : ExpenseBody)
    (db : Database) (e : ExpenseRow) :
  eid <> 0%Z ->
  expenseUpdateSchema body = true ->
  findExpense eid db = Some e ->
  putExpense (Some eid) body db
    = (Updated200 (mkExpenseRow eid (body_amount body) (body_paid_by body)),
       rewrittenExpense eid (body_amount body) (body_paid_by body)
         (body_split body) db).
Proof.
  intros Hid Hv Hfind. unfold putExpense. rewrite Hv, Hfind.
  destruct eid; [congruence | reflexivity | reflexivity].
Qed.

Lemma putExpense_unchanged (expenseId : option Z) (body : ExpenseBody)
    (db : Database) :
  (forall row, fst (putExpense expenseId body db) <> Updated200 row) ->
  snd (putExpense expenseId body db) = db.
Proof.
  unfold putExpense. intros Hno.
  destruct expenseId as [[|eid|eid]|]; try reflexivity;
    destruct (negb (expenseUpdateSchema body)); try reflexivity;
    destruct (findExpense _ db); try reflexivity;
    exfalso; eapply Hno; reflexivity.
Qed.

Lemma findExpense_Some (eid : ExpenseId) (db : Database) (e : ExpenseRow) :
  findExpense eid db = Some e -> e ∈ db_expenses db /\ exp_id e = eid.
Proof.
  unfold findExpense. intros Hhead.
  assert (Hin : e ∈ filter (fun e => exp_id e = eid) (db_expenses db)).
  { destruct (filter _ _) as [|x xs]; [discriminate|].
    injection Hhead as ->. apply list_elem_of_here. }
  apply list_elem_of_filter in Hin. tauto.
Qed.

Lemma findExpense_elem (eid : ExpenseId) (db : Database) (e : ExpenseRow) :
  e ∈ db_expenses db -> exp_id e = eid ->
  exists e', findExpense eid db = Some e'.
Proof.
  intros Hin Hid. unfold findExpense.
  assert (Hf : e ∈ filter (fun e => exp_id e = eid) (db_expenses db))
    by now apply list_elem_of_filter.
  destruct (filter _ _) as [|x xs]; [inversion Hf | now exists x].
Qed.

Lemma splitRowsOf_rewritten_target (eid : ExpenseId) (amount : Q)
    (paidBy : string) (items : list SplitItem) (db : Database) :
  splitRowsOf (rewrittenExpense eid amount paidBy items db)
    (mkExpenseRow eid amount paidBy)
  = map (splitRowOf eid) items.
Proof.
  rewrite rewrittenExpense_spec. unfold splitRowsOf.
  cbn [db_splits exp_id]. rewrite filter_app.
  rewrite filter_none, filter_all; [reflexivity| |].
  - apply Forall_forall. intros s Hs.
    apply list_elem_of_In, in_map_iff in Hs. now destruct Hs as (i & <- & _).
  - apply Forall_forall. intros s Hs.
    apply list_elem_of_filter in Hs. tauto.
Qed.

Lemma splitRowsOf_rewritten_other (eid : ExpenseId) (amount : Q)
    (paidBy : string) (items : list SplitItem) (db : Database)
    (e : ExpenseRow) :
  exp_id e <> eid ->
  splitRowsOf (rewrittenExpense eid amount paidBy items db) e
    = splitRowsOf db e.
Proof.
  intros Hid. rewrite rewrittenExpense_spec. unfold splitRowsOf.
  cbn [db_splits]. rewrite filter_app.
  rewrite (filter_none _ (map _ items)), app_nil_r.
  - induction (db_splits db) as [|s l IH]; [reflexivity|].
    rewrite (filter_cons (fun s => sr_expense s <> eid)).
    destruct (decide (sr_expense s <> eid)) as [Hs|Hs].
    + rewrite !filter_cons. destruct (decide (sr_expense s = exp_id e));
        now rewrite IH.
    + rewrite filter_cons.
      destruct (decide (sr_expense s = exp_id e)) as [Heq|Heq];
        [|exact IH].
      exfalso. apply Hs. congruence.
  - apply Forall_forall. intros s Hs.
    apply list_elem_of_In, in_map_iff in Hs.
    destruct Hs as (i & <- & _). cbn [sr_expense splitRowOf]. congruence.
Qed.

Lemma wellFormed_rewrittenExpense (eid : ExpenseId) (amount : Q)
    (paidBy : string) (items : list SplitItem) (db : Database) :
  wellFormed db -> wellFormed (rewrittenExpense eid amount paidBy items db).
Proof.
  intros (Hnd & Hpay & Hobl). rewrite rewrittenExpense_spec.
  unfold wellFormed. cbn [db_persons db_expenses db_splits].
  split; [now apply addNames_NoDup|]. split.
  - apply Forall_forall. intros e He.
    apply list_elem_of_In, in_map_iff in He. destruct He as (e0 & <- & He0).
    apply addNames_elem.
    destruct (decide (exp_id e0 = eid)).
    + right. cbn [exp_paidBy]. apply list_elem_of_here.
    + left. rewrite Forall_forall in Hpay. apply Hpay.
      now apply list_elem_of_In.
  - apply Forall_app. split.
    + apply Forall_forall. intros s Hs. apply list_elem_of_filter in Hs.
      apply addNames_elem. left. rewrite Forall_forall in Hobl.
      now apply Hobl.
    + apply Forall_forall. intros s Hs.
      apply list_elem_of_In, in_map_iff in Hs. destruct Hs as (i & <- & Hi).
      apply addNames_elem. right. cbn [sr_person splitRowOf].
      apply list_elem_of_further, list_elem_of_In, in_map_iff. eauto.
Qed.

(** X22. A PUT that answers 200 replaces the split rows of the target
    expense by the rows of the request, in request order; it leaves the
    split rows of every other expense, the ids of the expense table and
    every person in place, and it keeps the tables well formed. *)
Theorem put_replaces_splits (eid : ExpenseId) (body : ExpenseBody)
    (db : Database) (row : ExpenseRow) :
  wellFormed db ->
  fst (putExpense (Some eid) body db) = Updated200 row ->
  let db' := snd (putExpense (Some eid) body db) in
  row = mkExpenseRow eid (body_amount body) (body_paid_by body) /\
  row ∈ db_expenses db' /\
  splitRowsOf db' row = map (splitRowOf eid) (body_split body) /\
  (forall e, exp_id e <> eid -> splitRowsOf db' e = splitRowsOf db e) /\
  (forall e, exp_id e <> eid -> e ∈ db_expenses db' <-> e ∈ db_expenses db) /\
  map exp_id (db_expenses db') = map exp_id (db_expenses db) /\
  db_persons db `prefix_of` db_persons db' /\
  wellFormed db'.
Proof.
  intros Hwf Hok db'.
  assert (Hcases : exists e, eid <> 0%Z /\ expenseUpdateSchema body = true /\
                             findExpense eid db = Some e).
  { revert Hok. unfold putExpense.
    destruct eid; [discriminate| |];
      (destruct (expenseUpdateSchema body); [|discriminate]);
      (destruct (findExpense _ db) as [e|]; [|discriminate]);
      intros _; exists e; repeat split; discriminate. }
  destruct Hcases as (e & Hid & Hv & Hfind).
  pose proof (putExpense_found eid body db e Hid Hv Hfind) as Hput.
  subst db'. rewrite Hput in *. cbn [fst snd] in *.
  injection Hok as <-.
  destruct (findExpense_Some _ _ _ Hfind) as (Hin & Heid).
  split; [reflexivity|]. split; [|split; [|split; [|split; [|split; [|split]]]]].
  - rewrite rewrittenExpense_spec. cbn [db_expenses].
    apply list_elem_of_In, in_map_iff. exists e. split.
    + now rewrite decide_True.
    + now apply list_elem_of_In.
  - apply splitRowsOf_rewritten_target.
  - intros e0 He0. now apply splitRowsOf_rewritten_other.
  - intros e0 He0. rewrite rewrittenExpense_spec. cbn [db_expenses].
    rewrite list_elem_of_In, in_map_iff. split.
    + intros (e1 & Heq & Hin1). destruct (decide (exp_id e1 = eid)).
      * subst e0. now contradiction He0.
      * subst e0. now apply list_elem_of_In.
    + intros Hin0. exists e0. split.
      * now rewrite decide_False.
      * now apply list_elem_of_In.
  - rewrite rewrittenExpense_spec. cbn [db_expenses]. rewrite map_map.
    apply map_ext. intros e0. now destruct (decide (exp_id e0 = eid)).
  - rewrite rewrittenExpense_spec. cbn [db_persons]. apply addNames_prefix.
  - now apply wellFormed_rewrittenExpense.
Qed.

Lemma put_replaces_splits_witness :
  let db := snd (postExpense 1%Z dinner emptyDb) in
  let row := mkExpenseRow 1%Z 60 "Bob" in
  let db' := snd (putExpense (Some 1%Z) lunch db) in
  row = mkExpenseRow 1%Z (body_amount lunch) (body_paid_by lunch) /\
  row ∈ db_expenses db' /\
  splitRowsOf db' row = map (splitRowOf 1%Z) (body_split lunch) /\
  (forall e, exp_id e <> 1%Z -> splitRowsOf db' e = splitRowsOf db e) /\
  (forall e, exp_id e <> 1%Z -> e ∈ db_expenses db' <-> e ∈ db_expenses db) /\
  map exp_id (db_expenses db') = map exp_id (db_expenses db) /\
  db_persons db `prefix_of` db_persons db' /\
  wellFormed db'.
Proof.
  apply (put_replaces_splits 1%Z lunch
           (snd (postExpense 1%Z dinner emptyDb)) (mkExpenseRow 1%Z 60 "Bob")).
  - split; [|split].
    + apply (bool_decide_unpack _). vm_compute. exact I.
    + apply (bool_decide_unpack _). vm_compute. exact I.
    + apply (bool_decide_unpack _). vm_compute. exact I.
  - reflexivity.
Defined.

(** X23. A PUT answers 200 exactly when the id is a number other than 0,
    the body passes the schema and the expense table has a row of that
    id; with any other answer the tables are left as they were. *)
Theorem put_answers (expenseId : option Z) (body : ExpenseBody)
    (db : Database) :
  ((exists row, fst (putExpense expenseId body db) = Updated200 row) <->
   (exists eid e,
      expenseId = Some eid /\ eid <> 0%Z /\
      expenseUpdateSchema body = true /\
      e ∈ db_expenses db /\ exp_id e = eid)) /\
  ((forall row, fst (putExpense expenseId body db) <> Updated200 row) ->
   snd (putExpense expenseId body db) = db).
Proof.
  split; [|apply putExpense_unchanged]. split.
  - intros (row & Hok). revert Hok. unfold putExpense.
    destruct expenseId as [eid|]; [|discriminate].
    destruct (Z.eq_dec eid 0%Z) as [->|Hid]; [discriminate|].
    destruct (expenseUpdateSchema body) eqn:Hv;
      [|destruct eid; discriminate].
    destruct (findExpense eid db) as [e|] eqn:Hfind;
      [|destruct eid; discriminate].
    intros _. destruct (findExpense_Some _ _ _ Hfind) as (Hin & He).
    exists eid, e. tauto.
  - intros (eid & e & -> & Hid & Hv & Hin & He).
    destruct (findExpense_elem eid db e Hin He) as (e' & Hfind).
    exists (mkExpenseRow eid (body_amount body) (body_paid_by body)).
    pose proof (putExpense_found eid body db e' Hid Hv Hfind) as Hput.
    unfold ExpenseId in *. now rewrite Hput.
Qed.

Lemma addNames_twice (names persons : list string) :
  addNames names (addNames names persons) = addNames names persons.
Proof.
  apply addNames_id. intros n Hn. apply addNames_elem. now right.
Qed.

Lemma rewrittenExpense_twice (eid : ExpenseId) (amount : Q)
    (paidBy : string) (items : list SplitItem) (db : Database) :
  rewrittenExpense eid amount paidBy items
    (rewrittenExpense eid amount paidBy items db)
  = rewrittenExpense eid amount paidBy items db.
Proof.
  rewrite (rewrittenExpense_spec eid amount paidBy items
             (rewrittenExpense eid amount paidBy items db)).
  rewrite rewrittenExpense_spec. cbn [db_persons db_expenses db_splits].
  f_equal.
  - apply addNames_twice.
  - rewrite map_map. apply map_ext. intros e.
    destruct (decide (exp_id e = eid)) as [He|He].
    + now rewrite decide_True.
    + now rewrite decide_False.
  - f_equal. rewrite filter_app.
    rewrite (filter_none _ (map _ items)), app_nil_r.
    + apply filter_all. apply Forall_forall. intros s Hs.
      apply list_elem_of_filter in Hs. tauto.
    + apply Forall_forall. intros s Hs.
      apply list_elem_of_In, in_map_iff in Hs.
      destruct Hs as (i & <- & _). cbn [sr_expense splitRowOf]. tauto.
Qed.

(** X24. PUT is idempotent: sending the same request a second time gives
    the same answer and leaves the tables as the first request left
    them. *)
Theorem put_idempotent (expenseId : option Z) (body : ExpenseBody)
    (db : Database) :
  putExpense expenseId body (snd (putExpense expenseId body db))
    = putExpense expenseId body db.
Proof.
  destruct expenseId as [eid|]; [|reflexivity].
  destruct (Z.eq_dec eid 0%Z) as [->|Hid]; [reflexivity|].
  destruct (expenseUpdateSchema body) eqn:Hv.
  - destruct (findExpense eid db) as [e|] eqn:Hfind.
    + pose proof (putExpense_found eid body db e Hid Hv Hfind) as Hput0.
      unfold ExpenseId in *. rewrite Hput0. cbn [snd].
      destruct (findExpense_Some _ _ _ Hfind) as (Hin & He).
      destruct (findExpense_elem eid
                  (rewrittenExpense eid (body_amount body)
                     (body_paid_by body) (body_split body) db)
                  (mkExpenseRow eid (body_amount body) (body_paid_by body)))
        as (e' & Hfind'); [|reflexivity|].
      * rewrite rewrittenExpense_spec. cbn [db_expenses].
        apply list_elem_of_In, in_map_iff. exists e. split.
        -- now rewrite decide_True.
        -- now apply list_elem_of_In.
      * pose proof (putExpense_found eid body _ e' Hid Hv Hfind') as Hput.
        unfold ExpenseId in *. rewrite Hput.
        now rewrite rewrittenExpense_twice.
    + assert (Hput : putExpense (Some eid) body db = (NotFound404, db)).
      { unfold putExpense. rewrite Hv, Hfind. now destruct eid. }
      rewrite Hput. cbn [snd]. exact Hput.
  - assert (Hput : putExpense (Some eid) body db = (InvalidData400, db)).
    { unfold putExpense. rewrite Hv. now destruct eid. }
    rewrite Hput. cbn [snd]. exact Hput.
Qed.

(** X25. Sending to PUT, under the id of the expense just created, the
    body that POST accepted changes nothing: the answer is 200 with the
    created row and the tables stay as POST left them.  The id is new to
    the tables and is not 0. *)
Theorem put_after_post_changes_nothing (newId : ExpenseId)
    (body : ExpenseBody) (db : Database) :
  freshId newId db ->
  newId <> 0%Z ->
  expenseData body = true ->
  let db' := snd (postExpense newId body db) in
  putExpense (Some newId) body db'
    = (Updated200 (mkExpenseRow newId (body_amount body) (body_paid_by body)),
       db').
Proof.
  intros (Hfe & Hfs) Hid Hv db'. subst db'.
  rewrite (postExpense_valid _ _ _ Hv). cbn [snd].
  set (row := mkExpenseRow newId (body_amount body) (body_paid_by body)).
  set (dbw := writtenExpense _ _ _ _ db).
  assert (Hdbw : dbw = _) by apply writtenExpense_spec.
  assert (Hfind : exists e, findExpense newId dbw = Some e).
  { apply (findExpense_elem newId dbw row); [|reflexivity].
    rewrite Hdbw. cbn [db_expenses]. apply elem_of_app. right.
    apply list_elem_of_here. }
  destruct Hfind as (e & Hfind).
  rewrite (putExpense_found newId body dbw e Hid Hv Hfind). f_equal.
  rewrite rewrittenExpense_spec, Hdbw.
  cbn [db_persons db_expenses db_splits]. f_equal.
  - apply addNames_twice.
  - rewrite map_app. f_equal.
    + rewrite <- (map_id (db_expenses db)) at 2. apply map_ext_in.
      intros e0 He0. rewrite Forall_forall in Hfe.
      rewrite decide_False; [reflexivity|].
      apply Hfe. now apply list_elem_of_In.
    + cbn [map]. now rewrite decide_True.
  - f_equal. rewrite filter_app.
    rewrite (filter_none _ (map _ (body_split body))), app_nil_r.
    + now apply filter_all.
    + apply Forall_forall. intros s Hs.
      apply list_elem_of_In, in_map_iff in Hs.
      destruct Hs as (i & <- & _). cbn [sr_expense splitRowOf]. tauto.
Qed.

Lemma put_after_post_changes_nothing_witness :
  let db' := snd (postExpense 1%Z dinner emptyDb) in
  putExpense (Some 1%Z) dinner db'
    = (Updated200 (mkExpenseRow 1%Z (body_amount dinner)
                     (body_paid_by dinner)),
       db').
Proof.
  apply (put_after_post_changes_nothing 1%Z dinner emptyDb).
  - split; constructor.
  - discriminate.
  - reflexivity.
Defined.

Lemma bind_ext_in {A B : Type} (f g : A -> list B) (l : list A) :
  (forall x, x ∈ l -> f x = g x) -> l ≫= f = l ≫= g.
Proof.
  induction l as [|x l IH]; intros H; [reflexivity|].
  rewrite !bind_cons, (H x (list_elem_of_here x l)), IH; [reflexivity|].
  intros y Hy. apply H. now apply list_elem_of_further.
Qed.

Lemma expenseOf_written_new (newId : ExpenseId) (body : ExpenseBody)
    (db : Database) :
  Forall (fun s => sr_expense s <> newId) (db_splits db) ->
  expenseOf
    (writtenExpense newId (body_amount body) (body_paid_by body)
       (body_split body) db)
    (mkExpenseRow newId (body_amount body) (body_paid_by body))
  = requestedExpense newId body.
Proof.
  intros Hfs. unfold expenseOf, requestedExpense.
  rewrite splitRowsOf_written_new by exact Hfs. now rewrite map_map.
Qed.



(** * The handlers on doubles: properties *)

(** In this part the names are those of module [Float64]: the
    handlers, the validation and the planner on binary64 numbers. *)
Section OnDoubles.
Import Float64.
#[local] Set Warnings "-inexact-float".
Local Open Scope float_scope.

(** ** Validation *)

Lemma checkSplits_None_double (splits : list Split) :
  checkSplits splits = None <->
  forall split, In split splits -> checkSplit split = None.
Proof.
  induction splits as [|s rest IH]; simpl.
  - split; [intros _ ? [] | reflexivity].
  - destruct (checkSplit s) eqn:E.
    + split; [discriminate|]. intros H.
      specialize (H s (or_introl eq_refl)). congruence.
    + rewrite IH. split.
      * intros H x [<-|Hx]; auto.
      * intros H x Hx. apply H. now right.
Qed.

(** An error of the inner loop is the error of the first failing
    split. *)
Lemma checkSplits_Some_double (splits : list Split) (err : ValidationError) :
  checkSplits splits = Some err ->
  exists earlier split later,
    splits = earlier ++ split :: later /\
    checkSplits earlier = None /\ checkSplit split = Some err.
Proof.
  induction splits as [|s ss IH]; simpl; [discriminate|].
  destruct (checkSplit s) eqn:Es.
  - intros [= <-]. exists [], s, ss. auto.
  - intros H. destruct (IH H) as (earlier & s' & later & -> & He & Hs').
    exists (s :: earlier), s', later. simpl. rewrite Es. auto.
Qed.

(** An error of [validate] is the error of the first failing split in
    the order of the two loops. *)
Lemma validate_Some_double (people : list Person) (err : ValidationError) :
  validate people = Some err ->
  exists before person after earlier split later,
    people = before ++ person :: after /\
    person_splits person = earlier ++ split :: later /\
    validate before = None /\ checkSplits earlier = None /\
    checkSplit split = Some err.
Proof.
  induction people as [|p rest IH]; simpl; [discriminate|].
  destruct (checkSplits (person_splits p)) eqn:E.
  - intros [= <-].
    destruct (checkSplits_Some_double _ _ E)
      as (earlier & s & later & Hs & He & Hc).
    exists [], p, rest, earlier, s, later. auto.
  - intros H.
    destruct (IH H)
      as (before & p' & after & earlier & s & later & -> & Hs & Hb & He & Hc).
    exists (p :: before), p', after, earlier, s, later. simpl. rewrite E.
    auto.
Qed.

(** A failing split makes the validation fail, with the error of that
    split when no split visited before it fails. *)
Lemma validate_failing_double (before after : list Person) (person : Person)
    (earlier later : list Split) (split : Split) (err : ValidationError) :
  person_splits person = earlier ++ split :: later ->
  checkSplit split = Some err ->
  exists err',
    validate (before ++ person :: after) = Some err' /\
    (validate before = None -> checkSplits earlier = None -> err' = err).
Proof.
  intros Hs Hc.
  assert (Hp : exists e1, checkSplits (person_splits person) = Some e1 /\
                          (checkSplits earlier = None -> e1 = err)).
  { rewrite Hs. clear Hs. induction earlier as [|s earlier IH]; simpl.
    - rewrite Hc. eauto.
    - destruct (checkSplit s) as [e0|]; [|exact IH].
      exists e0. split; [reflexivity | discriminate]. }
  destruct Hp as (e1 & Hp & He1).
  induction before as [|p before IH]; simpl.
  - rewrite Hp. exists e1. split; [reflexivity | auto].
  - destruct (checkSplits (person_splits p)) as [e0|]; [|exact IH].
    exists e0. split; [reflexivity | discriminate].
Qed.

Lemma rejected_by_both_double (people : list Person) (err : ValidationError) :
  validate people = Some err ->
  balancesHandler (Some people) = Status400 err /\
  forall fuel, settlementsHandler fuel (Some people) = Some (Status400 err).
Proof.
  intros H. unfold balancesHandler, settlementsHandler. rewrite H. auto.
Qed.

Lemma checkSplit_exact_double (split : Split) :
  splitType split = exact ->
  checkSplit split =
    if toNumber (amount (expense split)) + 0.01 <? totalSplit (expense split)
    then Some (InvalidExact (id (expense split)) (totalSplit (expense split))
                 (toNumber (amount (expense split))))
    else None.
Proof.
  intros H. unfold checkSplit. rewrite H. simpl.
  now destruct (_ <? _).
Qed.

Lemma checkSplit_percentage_double (split : Split) :
  splitType split = percentage ->
  checkSplit split =
    if 100.01 <? totalSplit (expense split)
    then Some (InvalidPercentage (id (expense split))
                 (totalSplit (expense split)))
    else None.
Proof.
  intros H. unfold checkSplit. rewrite H. reflexivity.
Qed.

(** What a failing row does to the two responses. *)
Lemma failing_row_response_double (before after : list Person)
    (person : Person) (earlier later : list Split) (split : Split)
    (err : ValidationError) :
  person_splits person = earlier ++ split :: later ->
  checkSplit split = Some err ->
  exists err',
    balancesHandler (Some (before ++ person :: after)) = Status400 err' /\
    (forall fuel,
       settlementsHandler fuel (Some (before ++ person :: after))
         = Some (Status400 err')) /\
    (exists before' person' after' earlier' split' later',
       before ++ person :: after = before' ++ person' :: after' /\
       person_splits person' = earlier' ++ split' :: later' /\
       validate before' = None /\ checkSplits earlier' = None /\
       checkSplit split' = Some err') /\
    (validate before = None -> checkSplits earlier = None -> err' = err).
Proof.
  intros Hs Hc.
  destruct (validate_failing_double before after person earlier later split
              err Hs Hc) as (err' & Hv & Hfirst).
  destruct (rejected_by_both_double _ _ Hv) as (Hb & Hst).
  exists err'. split; [exact Hb|]. split; [exact Hst|].
  split; [now apply validate_Some_double | exact Hfirst].
Qed.

(** C6, amended.  On doubles, the check of a split row of type exact
    fails exactly when the sum of the split values of its expense, added
    as doubles from 0 in row order, is greater than the double amount +
    0.01, and its error names the expense id, that sum and the amount.
    A failing row makes both handlers answer 400 with the error of the
    first failing row in the order of the two loops: of this row when no
    row visited before it fails.  A row that does not fail passes the
    check.  In particular amount 100 with exact splits 40 and 70 is
    rejected, the error naming expense 7, the sum 110 and the amount
    100. *)
Theorem exact_check_on_doubles (before after : list Person) (person : Person)
    (earlier later : list Split) (split : Split) :
  person_splits person = earlier ++ split :: later ->
  splitType split = exact ->
  let people := before ++ person :: after in
  let e := expense split in
  let total := toNumber (amount e) in
  let error := InvalidExact (id e) (totalSplit e) total in
  checkSplit split
    = (if total + 0.01 <? totalSplit e then Some error else None) /\
  ((total + 0.01 <? totalSplit e) = true ->
   exists err,
     balancesHandler (Some people) = Status400 err /\
     (forall fuel,
        settlementsHandler fuel (Some people) = Some (Status400 err)) /\
     (exists before' person' after' earlier' split' later',
        people = before' ++ person' :: after' /\
        person_splits person' = earlier' ++ split' :: later' /\
        validate before' = None /\ checkSplits earlier' = None /\
        checkSplit split' = Some err) /\
     (validate before = None -> checkSplits earlier = None ->
      err = error)) /\
  ((total + 0.01 <? totalSplit e) = false -> checkSplit split = None) /\
  balancesHandler (Some exact_110_people)
    = Status400 (InvalidExact 7%Z 110 100) /\
  (forall fuel,
     settlementsHandler fuel (Some exact_110_people)
       = Some (Status400 (InvalidExact 7%Z 110 100))).
Proof.
  intros Hs Ht people e total error.
  pose proof (checkSplit_exact_double split Ht) as Hcheck.
  fold e in Hcheck. fold total in Hcheck. fold error in Hcheck.
  split; [exact Hcheck|]. split; [|split].
  - intros Hgt. rewrite Hgt in Hcheck.
    exact (failing_row_response_double before after person earlier later
             split error Hs Hcheck).
  - intros Hle. now rewrite Hle in Hcheck.
  - apply (rejected_by_both_double exact_110_people).
    vm_compute. reflexivity.
Qed.

(** The check of A's row, the first one visited, in the scenario of
    C6. *)
Lemma exact_check_on_doubles_witness :
  let people := [] ++ mkPerson "A" [mkExpenseRow 7%Z 100 "A"]
                        [mkSplit exact 40 exact_110]
                   :: [mkPerson "B" [] [mkSplit exact 70 exact_110]] in
  let e := expense (mkSplit exact 40 exact_110) in
  let total := toNumber (amount e) in
  let error := InvalidExact (id e) (totalSplit e) total in
  checkSplit (mkSplit exact 40 exact_110)
    = (if total + 0.01 <? totalSplit e then Some error else None) /\
  ((total + 0.01 <? totalSplit e) = true ->
   exists err,
     balancesHandler (Some people) = Status400 err /\
     (forall fuel,
        settlementsHandler fuel (Some people) = Some (Status400 err)) /\
     (exists before' person' after' earlier' split' later',
        people = before' ++ person' :: after' /\
        person_splits person' = earlier' ++ split' :: later' /\
        validate before' = None /\ checkSplits earlier' = None /\
        checkSplit split' = Some err) /\
     (validate [] = None -> checkSplits [] = None -> err = error)) /\
  ((total + 0.01 <? totalSplit e) = false ->
   checkSplit (mkSplit exact 40 exact_110) = None) /\
  balancesHandler (Some exact_110_people)
    = Status400 (InvalidExact 7%Z 110 100) /\
  (forall fuel,
     settlementsHandler fuel (Some exact_110_people)
       = Some (Status400 (InvalidExact 7%Z 110 100))).
Proof.
  apply (exact_check_on_doubles []
           [mkPerson "B" [] [mkSplit exact 70 exact_110]]
           (mkPerson "A" [mkExpenseRow 7%Z 100 "A"]
              [mkSplit exact 40 exact_110])
           [] [] (mkSplit exact 40 exact_110)).
  - reflexivity.
  - reflexivity.
Defined.

(** C7, amended.  On doubles, the check of a split row of type
    percentage fails exactly when the sum of the split values of its
    expense, added as doubles from 0 in row order, is greater than the
    double 100.01, and its error names the expense id and that sum.  A
    failing row makes both handlers answer 400 with the error of the
    first failing row in the order of the two loops: of this row when no
    row visited before it fails.  A row that does not fail passes the
    check, and its share is (value / 100) * amount.  In particular on an
    expense of amount 200 the splits 50 and 60 are rejected, the error
    naming expense 8 and the total 110, while the splits 50 and 50 are
    accepted: [GET /balances] answers with owes 100 for A and for B, and
    [GET /settlements] with the transfer of 100 from B to A. *)
Theorem percentage_check_on_doubles (before after : list Person)
    (person : Person) (earlier later : list Split) (split : Split) :
  person_splits person = earlier ++ split :: later ->
  splitType split = percentage ->
  let people := before ++ person :: after in
  let e := expense split in
  let error := InvalidPercentage (id e) (totalSplit e) in
  checkSplit split
    = (if 100.01 <? totalSplit e then Some error else None) /\
  ((100.01 <? totalSplit e) = true ->
   exists err,
     balancesHandler (Some people) = Status400 err /\
     (forall fuel,
        settlementsHandler fuel (Some people) = Some (Status400 err)) /\
     (exists before' person' after' earlier' split' later',
        people = before' ++ person' :: after' /\
        person_splits person' = earlier' ++ split' :: later' /\
        validate before' = None /\ checkSplits earlier' = None /\
        checkSplit split' = Some err) /\
     (validate before = None -> checkSplits earlier = None ->
      err = error)) /\
  ((100.01 <? totalSplit e) = false ->
   checkSplit split = None /\
   shareOf split = toNumber (value split) / 100 * toNumber (amount e)) /\
  balancesHandler (Some percent_110_people)
    = Status400 (InvalidPercentage 8%Z 110) /\
  (forall fuel,
     settlementsHandler fuel (Some percent_110_people)
       = Some (Status400 (InvalidPercentage 8%Z 110))) /\
  balancesHandler (Some percent_100_people)
    = BalancesOk [ mkBalance "A" 200 100 100; mkBalance "B" 0 100 (-100) ] /\
  settlementsHandler 1 (Some percent_100_people)
    = Some (SettlementsOk
              [ mkBalance "A" 200 100 0; mkBalance "B" 0 100 0 ]
              [ mkSettlement "B" "A" 100 ]).
Proof.
  intros Hs Ht people e error.
  pose proof (checkSplit_percentage_double split Ht) as Hcheck.
  fold e in Hcheck. fold error in Hcheck.
  split; [exact Hcheck|]. split; [|split; [|split; [|split; [|split]]]].
  - intros Hgt. rewrite Hgt in Hcheck.
    exact (failing_row_response_double before after person earlier later
             split error Hs Hcheck).
  - intros Hle. rewrite Hle in Hcheck. split; [exact Hcheck|].
    unfold shareOf. now rewrite Ht.
  - apply (rejected_by_both_double percent_110_people).
    vm_compute. reflexivity.
  - apply (rejected_by_both_double percent_110_people).
    vm_compute. reflexivity.
  - vm_compute. reflexivity.
  - vm_compute. reflexivity.
Qed.

(** The check of A's row in the accepted scenario of C7. *)
Lemma percentage_check_on_doubles_witness :
  let people := [] ++ mkPerson "A" [mkExpenseRow 9%Z 200 "A"]
                        [mkSplit percentage 50 percent_100]
                   :: [mkPerson "B" [] [mkSplit percentage 50 percent_100]] in
  let e := expense (mkSplit percentage 50 percent_100) in
  let error := InvalidPercentage (id e) (totalSplit e) in
  checkSplit (mkSplit percentage 50 percent_100)
    = (if 100.01 <? totalSplit e then Some error else None) /\
  ((100.01 <? totalSplit e) = true ->
   exists err,
     balancesHandler (Some people) = Status400 err /\
     (forall fuel,
        settlementsHandler fuel (Some people) = Some (Status400 err)) /\
     (exists before' person' after' earlier' split' later',
        people = before' ++ person' :: after' /\
        person_splits person' = earlier' ++ split' :: later' /\
        validate before' = None /\ checkSplits earlier' = None /\
        checkSplit split' = Some err) /\
     (validate [] = None -> checkSplits [] = None -> err = error)) /\
  ((100.01 <? totalSplit e) = false ->
   checkSplit (mkSplit percentage 50 percent_100) = None /\
   shareOf (mkSplit percentage 50 percent_100)
     = toNumber 50 / 100 * toNumber (amount e)) /\
  balancesHandler (Some percent_110_people)
    = Status400 (InvalidPercentage 8%Z 110) /\
  (forall fuel,
     settlementsHandler fuel (Some percent_110_people)
       = Some (Status400 (InvalidPercentage 8%Z 110))) /\
  balancesHandler (Some percent_100_people)
    = BalancesOk [ mkBalance "A" 200 100 100; mkBalance "B" 0 100 (-100) ] /\
  settlementsHandler 1 (Some percent_100_people)
    = Some (SettlementsOk
              [ mkBalance "A" 200 100 0; mkBalance "B" 0 100 0 ]
              [ mkSettlement "B" "A" 100 ]).
Proof.
  apply (percentage_check_on_doubles []
           [mkPerson "B" [] [mkSplit percentage 50 percent_100]]
           (mkPerson "A" [mkExpenseRow 9%Z 200 "A"]
              [mkSplit percentage 50 percent_100])
           [] [] (mkSplit percentage 50 percent_100)).
  - reflexivity.
  - reflexivity.
Defined.

(** ** The settlement loop *)

Lemma body_balances_double (d c : nat) (st : LoopState) :
  st_balances (body d c st)
    = if 0.01 <? amountOf d c (st_balances st)
      then applyMove (st_balances st)
             (mkMove d c (amountOf d c (st_balances st)))
      else st_balances st.
Proof. unfold body. cbn [st_balances]. reflexivity. Qed.

Lemma body_settlements_double (d c : nat) (st : LoopState) :
  st_settlements (body d c st)
    = st_settlements st ++
      (if 0.01 <? amountOf d c (st_balances st)
       then [settlementOf (st_balances st)
               (mkMove d c (amountOf d c (st_balances st)))]
       else []).
Proof.
  unfold body. cbn [st_settlements].
  destruct (0.01 <? _); [reflexivity | now rewrite app_nil_r].
Qed.

Lemma body_i_double (d c : nat) (st : LoopState) :
  st_i (body d c st)
    = if settled (balanceAt (st_balances (body d c st)) d)
      then S (st_i st) else st_i st.
Proof. reflexivity. Qed.

Lemma body_j_double (d c : nat) (st : LoopState) :
  st_j (body d c st)
    = if settled (balanceAt (st_balances (body d c st)) c)
      then S (st_j st) else st_j st.
Proof. reflexivity. Qed.

(** A move changes the balance field only. *)
Lemma applyMove_lookup (store : list Balance) (m : Move) (k : nat) :
  applyMove store m !! k
    = (fun p => withBalance p (movedBy k (balance p) m)) <$> store !! k.
Proof.
  destruct m as [d c a]. unfold applyMove, movedBy.
  cbn [mv_debtor mv_creditor mv_amount]. rewrite !list_lookup_alter.
  repeat case_decide; subst; try congruence;
    now destruct (store !! _) as [[]|].
Qed.

Lemma applyMove_length (store : list Balance) (m : Move) :
  length (applyMove store m) = length store.
Proof. unfold applyMove. now rewrite !length_alter. Qed.

Lemma applyMove_nameAt (store : list Balance) (m : Move) (k : nat) :
  nameAt (applyMove store m) k = nameAt store k.
Proof.
  unfold nameAt. rewrite applyMove_lookup.
  now destruct (store !! k).
Qed.

Lemma replay_lookup (ms : list Move) (store : list Balance) (k : nat) :
  fold_left applyMove ms store !! k
    = (fun p => withBalance p (fold_left (movedBy k) ms (balance p)))
        <$> store !! k.
Proof.
  revert store. induction ms as [|m ms IH]; intros store; cbn [fold_left].
  - now destruct (store !! k) as [[]|].
  - rewrite IH, applyMove_lookup. now destruct (store !! k).
Qed.

Lemma replay_length (ms : list Move) (store : list Balance) :
  length (fold_left applyMove ms store) = length store.
Proof.
  revert store. induction ms as [|m ms IH]; intros store; cbn [fold_left];
    [reflexivity|]. now rewrite IH, applyMove_length.
Qed.

Lemma replay_nameAt (ms : list Move) (store : list Balance) (k : nat) :
  nameAt (fold_left applyMove ms store) k = nameAt store k.
Proof.
  revert store. induction ms as [|m ms IH]; intros store; cbn [fold_left];
    [reflexivity|]. now rewrite IH, applyMove_nameAt.
Qed.

(** The store after [n] iterations is the store with the moves of these
    iterations applied in order. *)
Lemma iter_replays_moves (debtors creditors : list nat) (n : nat)
    (st : LoopState) :
  st_balances (iter debtors creditors n st)
    = fold_left applyMove (movesOf debtors creditors n st) (st_balances st).
Proof.
  revert st. induction n as [|n IH]; intros st; [reflexivity|].
  cbn [iter movesOf]. unfold step.
  destruct (debtors !! st_i st) as [d|]; [|reflexivity].
  destruct (creditors !! st_j st) as [c|]; [|reflexivity].
  rewrite IH, fold_left_app, body_balances_double.
  now destruct (0.01 <? _).
Qed.

(** The settlements pushed by [n] iterations are those of the moves. *)
Lemma iter_settlements_moves (balances0 : list Balance)
    (debtors creditors : list nat) (n : nat) (st : LoopState) :
  (forall k, nameAt (st_balances st) k = nameAt balances0 k) ->
  st_settlements (iter debtors creditors n st)
    = st_settlements st
        ++ map (settlementOf balances0) (movesOf debtors creditors n st).
Proof.
  revert st. induction n as [|n IH]; intros st Hnames;
    [now rewrite app_nil_r|].
  cbn [iter movesOf]. unfold step.
  destruct (debtors !! st_i st) as [d|]; [|now rewrite app_nil_r].
  destruct (creditors !! st_j st) as [c|]; [|now rewrite app_nil_r].
  rewrite IH.
  - rewrite body_settlements_double, map_app, <- app_assoc. f_equal. f_equal.
    destruct (0.01 <? _); [|reflexivity].
    cbn [map]. unfold settlementOf. cbn [mv_debtor mv_creditor mv_amount].
    now rewrite !Hnames.
  - intros k. rewrite body_balances_double.
    destruct (0.01 <? _); [|apply Hnames].
    now rewrite applyMove_nameAt.
Qed.

(** A move is made only for an amount above 0.01. *)
Lemma movesOf_above (debtors creditors : list nat) (n : nat)
    (st : LoopState) :
  Forall (fun m => (0.01 <? mv_amount m) = true)
    (movesOf debtors creditors n st).
Proof.
  revert st. induction n as [|n IH]; intros st; cbn [movesOf];
    [constructor|].
  destruct (debtors !! st_i st) as [d|]; [|constructor].
  destruct (creditors !! st_j st) as [c|]; [|constructor].
  apply Forall_app. split; [|apply IH].
  destruct (0.01 <? _) eqn:E; constructor; [exact E | constructor].
Qed.

(** The planner's result, read off the state after [fuel] iterations. *)
Lemma plan_Some_double (fuel : nat) (balances summary : list Balance)
    (settlements : list Settlement) :
  plan fuel balances = Some (summary, settlements) ->
  let st := iter (debtorsOf balances) (creditorsOf balances) fuel
              (initState balances) in
  summary = st_balances st /\ settlements = st_settlements st /\
  step (debtorsOf balances) (creditorsOf balances) st = None.
Proof.
  unfold plan, loop. cbv zeta.
  destruct (step _ _ _) eqn:Hstep; [discriminate|].
  now intros [= <- <-].
Qed.

(** C2, amended.  In the response of [GET /settlements] the summary is
    the array of the balance map as the loop left it: one record per
    person, in order, with name, paid and owes unchanged.  The
    settlements are those of the emitting iterations, one per move, with
    the names of the debtor and the creditor and the amount moved rounded
    to hundredths.  The balance of a record is its aggregated balance to
    which the amounts moved, as they are before that rounding, were added
    (where it was the debtor) and subtracted (where it was the creditor),
    one by one in loop order and in double arithmetic. *)
Theorem summary_replays_moves (people : list Person) (fuel : nat)
    (summary : list Balance) (settlements : list Settlement) :
  settlementsHandler fuel (Some people)
    = Some (SettlementsOk summary settlements) ->
  let balances := computeBalances people in
  let moves :=
    movesOf (debtorsOf balances) (creditorsOf balances) fuel
      (initState balances) in
  settlements = map (settlementOf balances) moves /\
  Forall (fun m => (0.01 <? mv_amount m) = true) moves /\
  summary = fold_left applyMove moves balances /\
  length summary = length balances /\
  forall k aggregated,
    balances !! k = Some aggregated ->
    exists returned,
      summary !! k = Some returned /\
      sameIdentity aggregated returned /\
      balance returned = fold_left (movedBy k) moves (balance aggregated).
Proof.
  intros Hresp balances moves. unfold settlementsHandler in Hresp.
  destruct (validate people); [discriminate|].
  fold balances in Hresp.
  destruct (plan fuel balances) as [[summary' ss']|] eqn:Hplan;
    [|discriminate].
  injection Hresp as <- <-.
  destruct (plan_Some_double _ _ _ _ Hplan) as (Hsum & Hss & _).
  rewrite iter_replays_moves in Hsum. cbn [initState st_balances] in Hsum.
  rewrite (iter_settlements_moves balances) in Hss by reflexivity.
  cbn [initState st_settlements app] in Hss. fold moves in Hsum, Hss.
  split; [exact Hss|]. split; [|split; [exact Hsum|split]].
  - apply movesOf_above.
  - rewrite Hsum. apply replay_length.
  - intros k aggregated Hk. rewrite Hsum, replay_lookup, Hk. cbn [fmap].
    eexists. split; [reflexivity|].
    split; [|reflexivity]. repeat split.
Qed.

(** The response on 100 split equally among A, B and C. *)
Lemma summary_replays_moves_witness :
  exists summary settlements,
    settlementsHandler 2 (Some equal_100_people)
      = Some (SettlementsOk summary settlements) /\
    let balances := computeBalances equal_100_people in
    let moves :=
      movesOf (debtorsOf balances) (creditorsOf balances) 2
        (initState balances) in
    settlements = map (settlementOf balances) moves /\
    Forall (fun m => (0.01 <? mv_amount m) = true) moves /\
    summary = fold_left applyMove moves balances /\
    length summary = length balances /\
    forall k aggregated,
      balances !! k = Some aggregated ->
      exists returned,
        summary !! k = Some returned /\
        sameIdentity aggregated returned /\
        balance returned = fold_left (movedBy k) moves (balance aggregated).
Proof.
  eexists _, _. split.
  - vm_compute. reflexivity.
  - apply (summary_replays_moves equal_100_people 2).
    vm_compute. reflexivity.
Defined.

(** C2, as stated, fails on doubles.  A paid 0.1 and B paid 0.2 for
    C: the aggregated balances are 0.1, 0.2 and -0.3 and the planner
    returns C -> B 0.2 and C -> A 0.1.  The second amount moved is
    0.09999999999999998, printed as 0.10: the summary leaves A with
    2.7755575615628914e-17, whereas A's aggregated balance plus outgoing
    minus incoming transfers is 0. *)
Lemma summary_balance_not_residual :
  exists a b c a' b' c' t1 t2,
    computeBalances tenths_people = [a; b; c] /\
    (name a, balance a) = ("A", 0.1) /\
    (name b, balance b) = ("B", 0.2) /\
    (name c, balance c) = ("C", -0.3) /\
    settlementsHandler 2 (Some tenths_people)
      = Some (SettlementsOk [a'; b'; c'] [t1; t2]) /\
    t1 = mkSettlement "C" "B" 0.2 /\
    t2 = mkSettlement "C" "A" 0.1 /\
    balance a' = 2.7755575615628914e-17 /\
    balance a + outgoing (name a) [t1; t2] - incoming (name a) [t1; t2] = 0 /\
    (balance a'
       =? balance a + outgoing (name a) [t1; t2]
          - incoming (name a) [t1; t2]) = false.
Proof.
  eexists _, _, _, _, _, _, _, _.
  split; [vm_compute; reflexivity|].
  split; [vm_compute; reflexivity|].
  split; [vm_compute; reflexivity|].
  split; [vm_compute; reflexivity|].
  split; [vm_compute; reflexivity|].
  repeat split; vm_compute; reflexivity.
Qed.

(** ** The arrays [creditors] and [debtors] *)

Lemma filterRefs_In_double (f : Balance -> bool) (balances : list Balance)
    (k : nat) :
  In k (filterRefs f balances) <->
  exists p, balances !! k = Some p /\ f p = true.
Proof.
  unfold filterRefs. rewrite filter_In, in_seq. split.
  - intros [_ H]. destruct (balances !! k) as [p|]; [eauto | discriminate].
  - intros (p & Hp & Hf). rewrite Hp. split; [|exact Hf].
    apply lookup_lt_Some in Hp. lia.
Qed.

Lemma filterRefs_NoDup_double (f : Balance -> bool)
    (balances : list Balance) :
  NoDup (filterRefs f balances).
Proof.
  unfold filterRefs. apply NoDup_ListNoDup, List.NoDup_filter.
  apply NoDup_ListNoDup, NoDup_seq.
Qed.

Lemma insertSorted_Permutation_double (cmp : nat -> nat -> float) (x : nat)
    (l : list nat) :
  insertSorted cmp x l ≡ₚ x :: l.
Proof.
  induction l as [|y l IH]; simpl; [reflexivity|].
  destruct (0 <? cmp x y); [|reflexivity].
  rewrite IH. apply Permutation_swap.
Qed.

Lemma sortRefs_Permutation_double (cmp : nat -> nat -> float)
    (l : list nat) :
  sortRefs cmp l ≡ₚ l.
Proof.
  induction l as [|x l IH]; simpl; [reflexivity|].
  now rewrite insertSorted_Permutation_double, IH.
Qed.

Lemma creditorsOf_In_double (balances : list Balance) (k : nat) :
  In k (creditorsOf balances) <->
  exists p, balances !! k = Some p /\ (0 <? balance p) = true.
Proof.
  unfold creditorsOf.
  rewrite <- !list_elem_of_In, sortRefs_Permutation_double, list_elem_of_In.
  apply filterRefs_In_double.
Qed.

Lemma debtorsOf_In_double (balances : list Balance) (k : nat) :
  In k (debtorsOf balances) <->
  exists p, balances !! k = Some p /\ (balance p <? 0) = true.
Proof.
  unfold debtorsOf.
  rewrite <- !list_elem_of_In, sortRefs_Permutation_double, list_elem_of_In.
  apply filterRefs_In_double.
Qed.

(** No double is both below and above zero. *)
Lemma not_both_signs (x : float) :
  (x <? 0) = true -> (0 <? x) = true -> False.
Proof.
  rewrite !ltb_spec. change (Prim2SF 0) with (S754_zero false).
  destruct (Prim2SF x) as [s|s| |s m e]; try destruct s; cbn; congruence.
Qed.

Lemma refs_disjoint_double (balances : list Balance) (k : nat) :
  In k (debtorsOf balances) -> In k (creditorsOf balances) -> False.
Proof.
  rewrite debtorsOf_In_double, creditorsOf_In_double.
  intros (p & Hp & Hneg) (q & Hq & Hpos).
  assert (p = q) by congruence. subst q.
  exact (not_both_signs _ Hneg Hpos).
Qed.

Lemma creditorsOf_NoDup_double (balances : list Balance) :
  NoDup (creditorsOf balances).
Proof.
  unfold creditorsOf. rewrite sortRefs_Permutation_double.
  apply filterRefs_NoDup_double.
Qed.

Lemma debtorsOf_NoDup_double (balances : list Balance) :
  NoDup (debtorsOf balances).
Proof.
  unfold debtorsOf. rewrite sortRefs_Permutation_double.
  apply filterRefs_NoDup_double.
Qed.

(** ** What the loop leaves behind the cursors *)

Lemma balanceAt_applyMove_other (store : list Balance) (m : Move) (k : nat) :
  k <> mv_debtor m -> k <> mv_creditor m ->
  balanceAt (applyMove store m) k = balanceAt store k.
Proof.
  intros Hd Hc. unfold balanceAt. rewrite applyMove_lookup.
  destruct (store !! k) as [p|]; [|reflexivity].
  cbn [fmap option_fmap option_map withBalance balance]. unfold movedBy.
  now rewrite !decide_False by assumption.
Qed.

(** The body writes to the records of the current debtor and creditor
    only. *)
Lemma body_balanceAt_other (d c k : nat) (st : LoopState) :
  k <> d -> k <> c ->
  balanceAt (st_balances (body d c st)) k = balanceAt (st_balances st) k.
Proof.
  intros Hd Hc. rewrite body_balances_double.
  destruct (0.01 <? _); [|reflexivity].
  now apply balanceAt_applyMove_other.
Qed.

Section Cursors.

Variable debtors creditors : list nat.
Hypothesis debtors_NoDup : NoDup debtors.
Hypothesis creditors_NoDup : NoDup creditors.
Hypothesis refs_disjoint : forall k, In k debtors -> In k creditors -> False.

Lemma behindCursors_body (d c : nat) (st : LoopState) :
  debtors !! st_i st = Some d ->
  creditors !! st_j st = Some c ->
  behindCursors debtors creditors st ->
  behindCursors debtors creditors (body d c st).
Proof.
  intros Hd Hc (Hdebt & Hcred).
  assert (Hdc : d <> c).
  { intros <-. apply (refs_disjoint d); apply list_elem_of_In;
      eapply list_elem_of_lookup_2; eassumption. }
  split.
  - intros i k Hi Hk. rewrite body_i_double in Hi.
    destruct (decide (i = st_i st)) as [->|Hne].
    + assert (k = d) by congruence. subst k.
      destruct (settled (balanceAt (st_balances (body d c st)) d)) eqn:E;
        [reflexivity | lia].
    + assert (Hlt : (i < st_i st)%nat)
        by (destruct (settled _) in Hi; lia).
      rewrite body_balanceAt_other; [now apply (Hdebt i)| |].
      * intros ->. apply Hne.
        exact (NoDup_lookup _ _ _ _ debtors_NoDup Hk Hd).
      * intros ->. apply (refs_disjoint c); apply list_elem_of_In;
          eapply list_elem_of_lookup_2; eassumption.
  - intros j k Hj Hk. rewrite body_j_double in Hj.
    destruct (decide (j = st_j st)) as [->|Hne].
    + assert (k = c) by congruence. subst k.
      destruct (settled (balanceAt (st_balances (body d c st)) c)) eqn:E;
        [reflexivity | lia].
    + assert (Hlt : (j < st_j st)%nat)
        by (destruct (settled _) in Hj; lia).
      rewrite body_balanceAt_other; [now apply (Hcred j)| |].
      * intros ->. apply (refs_disjoint d); apply list_elem_of_In;
          eapply list_elem_of_lookup_2; eassumption.
      * intros ->. apply Hne.
        exact (NoDup_lookup _ _ _ _ creditors_NoDup Hk Hc).
Qed.

Lemma behindCursors_iter (n : nat) (st : LoopState) :
  behindCursors debtors creditors st ->
  behindCursors debtors creditors (iter debtors creditors n st).
Proof.
  revert st. induction n as [|n IH]; intros st Hst; [exact Hst|].
  cbn [iter]. unfold step.
  destruct (debtors !! st_i st) as [d|] eqn:Hd; [|exact Hst].
  destruct (creditors !! st_j st) as [c|] eqn:Hc; [|exact Hst].
  apply IH. now apply behindCursors_body.
Qed.

End Cursors.

Lemma behindCursors_init (balances : list Balance)
    (debtors creditors : list nat) :
  behindCursors debtors creditors (initState balances).
Proof. split; intros i k Hi; cbn in Hi; lia. Qed.

(** C3, amended.  When the planner returns, one side is within the
    tolerance in the summary, the balances as the loop left them: every
    record whose aggregated balance was negative, or every record whose
    aggregated balance was positive, has a balance below 0.01 in
    magnitude.  Nothing is said of the other side, which keeps what is
    left. *)
Theorem one_side_within_tolerance (balances : list Balance) (fuel : nat)
    (summary : list Balance) (settlements : list Settlement) :
  plan fuel balances = Some (summary, settlements) ->
  (forall k aggregated returned,
     balances !! k = Some aggregated -> summary !! k = Some returned ->
     (balance aggregated <? 0) = true ->
     (abs (balance returned) <? 0.01) = true) \/
  (forall k aggregated returned,
     balances !! k = Some aggregated -> summary !! k = Some returned ->
     (0 <? balance aggregated) = true ->
     (abs (balance returned) <? 0.01) = true).
Proof.
  intros Hplan.
  destruct (plan_Some_double _ _ _ _ Hplan) as (Hsum & _ & Hstep).
  set (st := iter _ _ fuel _) in *.
  assert (HB : behindCursors (debtorsOf balances) (creditorsOf balances) st).
  { apply behindCursors_iter.
    - apply debtorsOf_NoDup_double.
    - apply creditorsOf_NoDup_double.
    - apply refs_disjoint_double.
    - apply behindCursors_init. }
  destruct HB as (Hdebt & Hcred). unfold step in Hstep.
  destruct (debtorsOf balances !! st_i st) as [d|] eqn:Hd.
  - destruct (creditorsOf balances !! st_j st) as [c|] eqn:Hc;
      [discriminate|].
    right. intros k p0 p Hp0 Hp Hpos.
    assert (Hin : In k (creditorsOf balances))
      by (apply creditorsOf_In_double; eauto).
    apply list_elem_of_In, list_elem_of_lookup in Hin.
    destruct Hin as (j & Hj).
    assert (Hlt : (j < st_j st)%nat).
    { apply lookup_ge_None in Hc. apply lookup_lt_Some in Hj. lia. }
    specialize (Hcred j k Hlt Hj). unfold settled, balanceAt in Hcred.
    rewrite <- Hsum, Hp in Hcred. exact Hcred.
  - left. intros k p0 p Hp0 Hp Hneg.
    assert (Hin : In k (debtorsOf balances))
      by (apply debtorsOf_In_double; eauto).
    apply list_elem_of_In, list_elem_of_lookup in Hin.
    destruct Hin as (i & Hi).
    assert (Hlt : (i < st_i st)%nat).
    { apply lookup_ge_None in Hd. apply lookup_lt_Some in Hi. lia. }
    specialize (Hdebt i k Hlt Hi). unfold settled, balanceAt in Hdebt.
    rewrite <- Hsum, Hp in Hdebt. exact Hdebt.
Qed.

(** The planner on 100 split equally among A, B and C: the two debtors
    are settled. *)
Lemma one_side_within_tolerance_witness :
  exists summary settlements,
    plan 2 (computeBalances equal_100_people) = Some (summary, settlements) /\
    ((forall k aggregated returned,
        computeBalances equal_100_people !! k = Some aggregated ->
        summary !! k = Some returned ->
        (balance aggregated <? 0) = true ->
        (abs (balance returned) <? 0.01) = true) \/
     (forall k aggregated returned,
        computeBalances equal_100_people !! k = Some aggregated ->
        summary !! k = Some returned ->
        (0 <? balance aggregated) = true ->
        (abs (balance returned) <? 0.01) = true)).
Proof.
  eexists _, _. split.
  - vm_compute. reflexivity.
  - eapply (one_side_within_tolerance (computeBalances equal_100_people) 2).
    vm_compute. reflexivity.
Defined.

(** C3, as stated, fails.  For 100 paid by A and split equally among
    A, B and C the aggregated balances are 66.67, -33.33 and -33.33; the
    planner returns B -> A 33.33 and C -> A 33.33.  With the formula of
    the claim (balance minus outgoing plus incoming) A ends at 133.33 and
    B at -66.66; with a payment raising the payer's balance A still ends
    at 0.01 or more, as it does in the summary (0.010000000000005116). *)
Lemma leftover_not_below_tolerance :
  exists a b c a' b' c' t1 t2,
    computeBalances equal_100_people = [a; b; c] /\
    (name a, balance a) = ("A", 66.67) /\
    (name b, balance b) = ("B", -33.33) /\
    (name c, balance c) = ("C", -33.33) /\
    settlementsHandler 2 (Some equal_100_people)
      = Some (SettlementsOk [a'; b'; c'] [t1; t2]) /\
    t1 = mkSettlement "B" "A" 33.33 /\
    t2 = mkSettlement "C" "A" 33.33 /\
    (abs (balance a - outgoing (name a) [t1; t2]
          + incoming (name a) [t1; t2]) <? 0.01) = false /\
    (abs (balance b - outgoing (name b) [t1; t2]
          + incoming (name b) [t1; t2]) <? 0.01) = false /\
    (abs (balance a + outgoing (name a) [t1; t2]
          - incoming (name a) [t1; t2]) <? 0.01) = false /\
    balance a' = 0.010000000000005116 /\
    (abs (balance a') <? 0.01) = false.
Proof.
  eexists _, _, _, _, _, _, _, _.
  split; [vm_compute; reflexivity|].
  split; [vm_compute; reflexivity|].
  split; [vm_compute; reflexivity|].
  split; [vm_compute; reflexivity|].
  split; [vm_compute; reflexivity|].
  repeat split; vm_compute; reflexivity.
Qed.

(** ** A state the loop does not leave *)

Lemma iter_add_double (debtors creditors : list nat) (a b : nat)
    (st : LoopState) :
  iter debtors creditors (a + b) st
    = iter debtors creditors b (iter debtors creditors a st).
Proof.
  revert st. induction a as [|a IH]; intros st; [reflexivity|].
  cbn [Nat.add iter]. destruct (step debtors creditors st) as [st'|] eqn:E.
  - apply IH.
  - destruct b; [reflexivity|]. cbn [iter]. now rewrite E.
Qed.

Lemma iter_halted_double (debtors creditors : list nat) (n : nat)
    (st : LoopState) :
  step debtors creditors st = None -> iter debtors creditors n st = st.
Proof. intros H. destruct n; [reflexivity|]. cbn [iter]. now rewrite H. Qed.

Lemma iter_stuck_double (debtors creditors : list nat) (n : nat)
    (st : LoopState) :
  step debtors creditors st = Some st -> iter debtors creditors n st = st.
Proof.
  intros H. induction n as [|n IH]; [reflexivity|].
  cbn [iter]. now rewrite H.
Qed.



End OnDoubles.

(** * Where doubles and decimals part ways *)

#[local] Set Warnings "-inexact-float".

(** C6, as stated, fails on the boundary.  For amount 3 with exact
    splits 0.02 and 2.99 the decimals add up to 3.01, which is at most the
    amount plus 0.01; the doubles add up to 3.0100000000000002, which is
    greater than the double 3 + 0.01, and both handlers answer 400. *)
Lemma exact_sum_at_bound_rejected :
  totalSplit boundary_exact <= amount boundary_exact + 0.01 /\
  Float64.checkSplit (mkSplit exact 0.02 boundary_exact)
    = Some (Float64.InvalidExact 5%Z 3.0100000000000002%float 3%float) /\
  Float64.balancesHandler (Some boundary_exact_people)
    = Float64.Status400
        (Float64.InvalidExact 5%Z 3.0100000000000002%float 3%float) /\
  Float64.settlementsHandler 0 (Some boundary_exact_people)
    = Some (Float64.Status400
              (Float64.InvalidExact 5%Z 3.0100000000000002%float 3%float)).
Proof.
  split; [vm_compute; discriminate|].
  repeat split; vm_compute; reflexivity.
Qed.

(** C7, as stated, fails on the boundary.  For percentage splits
    14.07, 49.95 and 35.99 the decimals add up to 100.01; the doubles add
    up to 100.01000000000002, which is greater than the double 100.01,
    and both handlers answer 400. *)
Lemma percentage_sum_at_bound_rejected :
  totalSplit boundary_percent <= 100.01 /\
  Float64.checkSplit (mkSplit percentage 14.07 boundary_percent)
    = Some (Float64.InvalidPercentage 6%Z 100.01000000000002%float) /\
  Float64.balancesHandler (Some boundary_percent_people)
    = Float64.Status400
        (Float64.InvalidPercentage 6%Z 100.01000000000002%float) /\
  Float64.settlementsHandler 0 (Some boundary_percent_people)
    = Some (Float64.Status400
              (Float64.InvalidPercentage 6%Z 100.01000000000002%float)).
Proof.
  split; [vm_compute; discriminate|].
  repeat split; vm_compute; reflexivity.
Qed.
